(** * dbt-glue: Python model submission to a Glue interactive session

    A shallow embedding of [dbt/adapters/glue/python_submissions.py]:
    the package scanner [_extract_packages_from_code], the package merge,
    the poll loop [_wait_for_statement_completion] and the orchestration
    [submit], followed by the properties the specification states about
    them. *)

From Stdlib Require Import QArith Lqa.
From stdpp Require Import base option list relations strings pretty gmap.

Local Open Scope string_scope.
Local Open Scope Z_scope.
Local Open Scope list_scope.

(** ** Python syntax trees, as far as the scanner reads them *)

Module PyAst.

(** The value held by an [ast.Constant]. Float, complex and bytes literals
    are outside the modelled fragment. *)
Inductive constant :=
| CStr (s : string)
| CInt (z : Z)
| CBool (b : bool)
| CNone
| CEllipsis.

(** [ast.AST] nodes. The classes the scanner tests with [isinstance] have
    a constructor of their own; every other class (Module, Expr, Assign,
    FunctionDef, BinOp, Tuple, ...) is a [Node] holding its class name and
    its child nodes in [_fields] order. The [expr_context] leaves
    (Load, Store, Del) have no children and are read by nothing here; they
    are left out of the tree. *)
#[warnings="-register-all"]
Inductive node :=
| Call (func : node) (args : list node) (keywords : list (option string * node))
| Attribute (value : node) (attr : string)
| Name (id : string)
| Constant (value : constant)
| List (elts : list node)
| Keyword (arg : option string) (value : node)
| Node (cls : string) (children : list node).

(** [ast.keyword] objects of a call, as nodes. *)
Definition keyword_node (kw : option string * node) : node :=
  Keyword (fst kw) (snd kw).

(** [ast.iter_child_nodes]: the direct children, field by field. *)
Definition iter_child_nodes (n : node) : list node :=
  match n with
  | Call func args keywords => func :: args ++ map keyword_node keywords
  | Attribute value _ => [value]
  | Name _ => []
  | Constant _ => []
  | List elts => elts
  | Keyword _ value => [value]
  | Node _ children => children
  end.

(** Number of nodes of a tree: the number of steps [ast.walk] takes. *)
Fixpoint node_size (n : node) : nat :=
  match n with
  | Call func args keywords =>
      S (node_size func
         + (sum_list_with node_size args
            + sum_list_with (fun kw => S (node_size (snd kw))) keywords))
  | Attribute value _ => S (node_size value)
  | Name _ => 1
  | Constant _ => 1
  | List elts => S (sum_list_with node_size elts)
  | Keyword _ value => S (node_size value)
  | Node _ children => S (sum_list_with node_size children)
  end%nat.

(** [ast.walk]: breadth-first, driven by a [deque]:
<<
    todo = deque([node])
    while todo:
        node = todo.popleft()
        todo.extend(iter_child_nodes(node))
        yield node
>>
    [walk_queue] is the loop, bounded by a step count. *)
Fixpoint walk_queue (steps : nat) (todo : list node) : list node :=
  match steps, todo with
  | S steps', n :: rest => n :: walk_queue steps' (rest ++ iter_child_nodes n)
  | _, _ => []
  end.

Definition walk (tree : node) : list node :=
  walk_queue (node_size tree) [tree].

(** The list comprehension
    [[elt.value for elt in kw.value.elts if isinstance(elt, ast.Constant)]]. *)
Fixpoint constant_values (elts : list node) : list constant :=
  match elts with
  | [] => []
  | Constant v :: rest => v :: constant_values rest
  | _ :: rest => constant_values rest
  end.

(** The inner loop [for kw in node.keywords]: the first keyword named
    [packages] whose value is an [ast.List] ends the whole function. *)
Fixpoint scan_keywords (keywords : list (option string * node))
  : option (list constant) :=
  match keywords with
  | [] => None
  | (arg, value) :: rest =>
      match value with
      | List elts =>
          if bool_decide (arg = Some "packages")
          then Some (constant_values elts)
          else scan_keywords rest
      | _ => scan_keywords rest
      end
  end.

(** The test of the outer [if]: a call whose callee is the attribute
    [config] of the name [dbt]. *)
Definition is_dbt_config (n : node) : bool :=
  match n with
  | Call (Attribute (Name id) attr) _ _ =>
      bool_decide (attr = "config") && bool_decide (id = "dbt")
  | _ => false
  end.

Definition keywords_of (n : node) : list (option string * node) :=
  match n with
  | Call _ _ keywords => keywords
  | _ => []
  end.

(** The outer loop [for node in ast.walk(tree)], with its early return. *)
Fixpoint scan_nodes (nodes : list node) : option (list constant) :=
  match nodes with
  | [] => None
  | n :: rest =>
      if is_dbt_config n
      then match scan_keywords (keywords_of n) with
           | Some found => Some found
           | None => scan_nodes rest
           end
      else scan_nodes rest
  end.

(** *** Shapes of trees, for stating what the scanner finds *)

(** The call [dbt.config(...)] with the given arguments. *)
Definition dbt_config (args : list node) (keywords : list (option string * node)) : node :=
  Call (Attribute (Name "dbt") "config") args keywords.

(** A keyword [packages=[...]] whose value is a list display. *)
Definition packages_list (kw : option string * node) : Prop :=
  ∃ elts, kw = (Some "packages", List elts).

(** A [dbt.config] call that carries such a keyword. *)
Definition has_packages_list (n : node) : Prop :=
  ∃ args keywords kw, n = dbt_config args keywords ∧ kw ∈ keywords ∧ packages_list kw.

Definition is_constant (n : node) : bool :=
  match n with Constant _ => true | _ => false end.

(** *** Trees of sample source texts, as [ast.parse] builds them *)

Definition str (s : string) : node := Constant (CStr s).
Definition module (body : list node) : node := Node "Module" body.
Definition expr_stmt (value : node) : node := Node "Expr" [value].

(** [dbt.config(packages=["a","b"])] *)
Definition call_ab : node :=
  dbt_config [] [(Some "packages", List [str "a"; str "b"])].
Definition tree_ab : node := module [expr_stmt call_ab].

(** [def model(dbt, session):]
    [    dbt.config(materialized="table", packages=["a","b"])]
    [    return session.sql(dbt.ref("t"))] *)
Definition tree_model : node :=
  module
    [Node "FunctionDef"
       [Node "arguments" [Node "arg" []; Node "arg" []];
        expr_stmt (dbt_config [] [(Some "materialized", str "table");
                                  (Some "packages", List [str "a"; str "b"])]);
        Node "Return"
          [Call (Attribute (Name "session") "sql")
                [Call (Attribute (Name "dbt") "ref") [str "t"] []] []]]].

(** [dbt.config(packages=["z"])]
    [dbt.config(packages=["a","b"])] *)
Definition tree_two_calls : node :=
  module [expr_stmt (dbt_config [] [(Some "packages", List [str "z"])]);
          expr_stmt call_ab].

(** [pkgs = ["a"]]
    [dbt.config(packages=pkgs)] *)
Definition tree_variable : node :=
  module [Node "Assign" [Name "pkgs"; List [str "a"]];
          expr_stmt (dbt_config [] [(Some "packages", Name "pkgs")])].

(** [dbt.config(packages=["a", extra, 1])]
    [dbt.config(packages=["late"])] *)
Definition tree_mixed : node :=
  module [expr_stmt (dbt_config [] [(Some "packages",
                                     List [str "a"; Name "extra"; Constant (CInt 1)])]);
          expr_stmt (dbt_config [] [(Some "packages", List [str "late"])])].

(** *** The nodes of a tree, by descent and by depth *)

(** [c] is a direct child of [p]. *)
Definition child (p c : node) : Prop := c ∈ iter_child_nodes p.

(** The nodes of a tree: the tree and everything below it. *)
Definition descendant : node -> node -> Prop := rtc child.

(** The nodes at a given depth, left to right. *)
Definition level (depth : nat) (tree : node) : list node :=
  Nat.iter depth (flat_map iter_child_nodes) [tree].

(** [def model(dbt, session):]
    [    dbt.config(packages=["inner"])]
    [dbt.config(packages=["outer"])] *)
Definition tree_nested : node :=
  module
    [Node "FunctionDef"
       [Node "arguments" [Node "arg" []; Node "arg" []];
        expr_stmt (dbt_config [] [(Some "packages", List [str "inner"])])];
     expr_stmt (dbt_config [] [(Some "packages", List [str "outer"])])].

End PyAst.

(** ** Python values, exceptions and outcomes *)

Module Py.
Import PyAst.

(** Control characters of the string literals of the source. *)
Definition nl : string := String (Ascii.ascii_of_nat 10) EmptyString.
Definition dquote : string := String (Ascii.ascii_of_nat 34) EmptyString.

(** [str.lower] on the ASCII range; no character outside it lowers to a
    letter of the word the source compares with. *)
Definition ascii_lower (c : Ascii.ascii) : Ascii.ascii :=
  let n := Ascii.nat_of_ascii c in
  if (65 <=? n)%nat && (n <=? 90)%nat then Ascii.ascii_of_nat (n + 32) else c.

Fixpoint lower (s : string) : string :=
  match s with
  | EmptyString => EmptyString
  | String c rest => String (ascii_lower c) (lower rest)
  end.

(** Python's [==] on constants: [True == 1] and [False == 0]; values of
    different kinds are otherwise different. It is the equality that
    [dict] and [set] use for their keys. *)
Definition py_eqb (a b : constant) : bool :=
  match a, b with
  | CStr s, CStr t => bool_decide (s = t)
  | CInt x, CInt y => bool_decide (x = y)
  | CBool x, CBool y => bool_decide (x = y)
  | CInt x, CBool y | CBool y, CInt x => bool_decide (x = if y then 1 else 0)
  | CNone, CNone => true
  | CEllipsis, CEllipsis => true
  | _, _ => false
  end.

(** [x in keys]. *)
Definition py_mem (x : constant) (keys : list constant) : bool :=
  existsb (py_eqb x) keys.

(** [str(value)], as the f-string [f'"{pkg}"'] formats a package. *)
Definition py_str (c : constant) : string :=
  match c with
  | CStr s => s
  | CInt z => pretty z
  | CBool true => "True"
  | CBool false => "False"
  | CNone => "None"
  | CEllipsis => "Ellipsis"
  end.

(** [dict.fromkeys(iterable)]: the keys in insertion order; a key equal
    to one already present leaves the mapping as it is. All values are
    [None], so the mapping is its list of keys, and [dict_setdefault] is
    the insertion of one key. *)
Definition dict_setdefault (keys : list constant) (k : constant) : list constant :=
  if py_mem k keys then keys else keys ++ [k].

Definition dict_fromkeys (iterable : list constant) : list constant :=
  fold_left dict_setdefault iterable [].

(** [set(iterable)]: its elements, each once. The representation lists
    them in the order of arrival; the order Python iterates them in is
    [set_order] of the runtime below. *)
Definition py_set (iterable : list constant) : list constant :=
  fold_left dict_setdefault iterable [].

(** Keys that are pairwise different for Python: no key twice, and no two
    keys that [==] identifies. *)
Definition py_distinct (keys : list constant) : Prop :=
  NoDup keys ∧ ∀ x y, x ∈ keys -> y ∈ keys -> py_eqb x y = true -> x = y.

(** The package set of [submit], before it is turned back into a list:
    [set(dict.fromkeys(declared + scanned))]. *)
Definition effective_packages (declared scanned : list constant) : list constant :=
  py_set (dict_fromkeys (declared ++ scanned)).

(** [", ".join(parts)]. *)
Fixpoint join (sep : string) (parts : list string) : string :=
  match parts with
  | [] => ""
  | [p] => p
  | p :: rest => p +:+ sep +:+ join sep rest
  end.

(** Exceptions derived from [Exception], the ones [except Exception]
    catches: the adapter's own error and any other class, given by its
    name and its [str()]. *)
Inductive exn :=
| DbtRuntimeError (msg : string)
| PyException (cls : string) (text : string).

Inductive outcome (A : Type) :=
| Return (a : A)
| Raise (e : exn).
Arguments Return {A} a.
Arguments Raise {A} e.

(** What a function returns: [None], or an output payload. *)
Inductive value :=
| VNone
| VOutput (output : gmap string string).

End Py.

(** ** The Glue session, the clock and the interpreter, as an environment *)

Module Glue.
Import PyAst Py.

(** Calls that leave [python_submissions.py], in the order made. The
    [print] calls are diagnostics and are not recorded. *)
Inductive event :=
| ECursor
| ERunStatement (session_id : string) (code : string)
| EGetStatement (session_id : string) (statement_id : Z)
| ETime
| ESleep (seconds : Z)
| EClose.

#[global] Instance event_eq_dec : EqDecision event.
Proof. solve_decision. Defined.

(** [response["Statement"]] of [get_statement]: its [State] and, when
    present, its [Output] mapping, whose values stand for their [str()]. *)
Record statement := {
  State : string;
  Output : option (gmap string string) }.

(** Everything [python_submissions.py] calls and does not define. A call
    to the session answers as a function of the calls made before it, so
    any behaviour of the service, however stateful, is an [Env].
    - [ast_parse]: CPython's [ast.parse];
    - [set_order]: the order in which a [set] built from the given keys
      is iterated, some permutation of them;
    - [DbtRuntimeError_str]: [str()] of a [DbtRuntimeError] with the given
      message ([dbt_common] formats it);
    - [connection_cursor]: [GlueConnection(credentials)] then [.cursor()],
      giving [connection.session_id];
    - [run_statement]: [glue_client.run_statement(...)["Id"]];
    - [get_statement]: [glue_client.get_statement(...)["Statement"]];
    - [time_time]: the reading of [time.time()], in seconds;
    - [connection_close]: [connection.close()]. *)
Record Env := {
  ast_parse : string -> outcome node;
  set_order : list constant -> list constant;
  set_order_perm : forall keys, set_order keys ≡ₚ keys;
  DbtRuntimeError_str : string -> string;
  connection_cursor : outcome string;
  run_statement : list event -> string -> string -> outcome Z;
  get_statement : list event -> string -> Z -> outcome statement;
  time_time : list event -> Q;
  connection_close : list event -> outcome unit }.

(** A computation reads and extends the list of calls made so far. It
    ends with a returned value or a raised exception, or it is still
    running when the step budget of its loops is used up ([None]). *)
Definition M (A : Type) : Type := list event -> option (outcome A * list event).

Definition ret {A} (a : A) : M A := fun tr => Some (Return a, tr).
Definition raise {A} (e : exn) : M A := fun tr => Some (Raise e, tr).
Definition still_running {A} : M A := fun _ => None.
Definition lift {A} (result : outcome A) : M A := fun tr => Some (result, tr).

Definition bind {A B} (m : M A) (k : A -> M B) : M B :=
  fun tr =>
    match m tr with
    | None => None
    | Some (Raise e, tr') => Some (Raise e, tr')
    | Some (Return a, tr') => k a tr'
    end.

Notation "x <~ m ;; k" := (bind m (fun x => k))
  (at level 100, m at next level, right associativity).
Notation "m ;;; k" := (bind m (fun _ => k))
  (at level 100, right associativity).

(** An external call: its answer depends on the calls before it, and the
    call joins them whether it returns or raises. *)
Definition call {A} (e : event) (answer : list event -> outcome A) : M A :=
  fun tr => Some (answer tr, tr ++ [e]).

(** [try: body / except Exception as e: handler(e)]. *)
Definition try_except {A} (body : M A) (handler : exn -> M A) : M A :=
  fun tr =>
    match body tr with
    | None => None
    | Some (Return a, tr') => Some (Return a, tr')
    | Some (Raise e, tr') => handler e tr'
    end.

(** [try: body / finally: final]: [final] runs on both exits of [body];
    an exception of [final] replaces the result of [body]. *)
Definition try_finally {A} (body : M A) (final : M unit) : M A :=
  fun tr =>
    match body tr with
    | None => None
    | Some (r, tr') =>
        match final tr' with
        | None => None
        | Some (Return _, tr'') => Some (r, tr'')
        | Some (Raise e, tr'') => Some (Raise e, tr'')
        end
    end.

(** [str(e)]. *)
Definition exn_str (env : Env) (e : exn) : string :=
  match e with
  | DbtRuntimeError msg => DbtRuntimeError_str env msg
  | PyException _ text => text
  end.

(** [x < y] on clock readings. Readings and their difference are exact
    rationals; the binary64 subtraction of the source can round a
    difference just below the timeout up to it, which ends the loop one
    turn earlier and never later. *)
Definition Qltb (x y : Q) : bool := negb (Qle_bool y x).

(** *** The model descriptor and [__init__] *)

Record model_config := {
  config_packages : option (list string);
  config_timeout : option Z }.

Record parsed_model := {
  alias : string;
  schema : string;
  config : model_config }.

Record GluePythonJobHelper := {
  identifier : string;
  self_schema : string;
  packages : list string;
  timeout : Z;
  polling_interval : Z }.

Definition __init__ (model : parsed_model) : GluePythonJobHelper :=
  {| identifier := alias model;
     self_schema := schema model;
     packages := default [] (config_packages (config model));
     timeout := default (60 * 60) (config_timeout (config model));
     polling_interval := 10 |}.

(** *** [_extract_packages_from_code]

    [parsed] is the outcome of [ast.parse(compiled_code)]; the [try]
    covers it and the scan, and [except Exception: pass] falls through to
    [return []]. *)
Definition _extract_packages_from_code (parsed : outcome node)
  : outcome (list constant) :=
  match parsed with
  | Return tree =>
      match scan_nodes (walk tree) with
      | Some found => Return found
      | None => Return []
      end
  | Raise _ => Return []
  end.

(** *** The package merge and the install statement *)

(** [list(set(dict.fromkeys(self.packages + code_packages)))]. *)
Definition merge_packages (env : Env) (self : GluePythonJobHelper)
    (code_packages : list constant) : list constant :=
  set_order env (effective_packages (map CStr (packages self)) code_packages).

Definition install_code (pkgs : list constant) : string :=
  let pkg_list := join ", " (map (fun pkg => dquote +:+ py_str pkg +:+ dquote) pkgs) in
  "import subprocess, sys" +:+ nl +:+
  "subprocess.check_call([sys.executable, '-m', 'pip', 'install', "
    +:+ pkg_list +:+ ", '-q'])".

(** *** [_run_statement] *)
Definition _run_statement (env : Env) (session_id code : string) : M Z :=
  call (ERunStatement session_id code) (fun tr => run_statement env tr session_id code).

(** *** [_wait_for_statement_completion] *)

Definition timed_out : exn :=
  DbtRuntimeError "Timed out waiting for statement to complete".

Definition output_error (output : gmap string string) : exn :=
  let error_message := default "" (output !! "ErrorName") in
  let error_value := default "" (output !! "ErrorValue") in
  let traceback := default "" (output !! "Traceback") in
  DbtRuntimeError ("Python model failed with error: " +:+ error_message
                   +:+ nl +:+ error_value +:+ nl +:+ traceback).

Definition state_error (state : string) : exn :=
  DbtRuntimeError ("Statement execution failed with state: " +:+ state).

(** One evaluation of the [while] condition and, when it holds, of the
    body; [again] is the rest of the loop. *)
Definition poll_once (env : Env) (self : GluePythonJobHelper)
    (session_id : string) (statement_id : Z) (start_time : Q)
    (again : M value) : M value :=
  now <~ call ETime (fun tr => Return (time_time env tr)) ;;
  if Qltb (now - start_time) (inject_Z (timeout self)) then
    response <~ call (EGetStatement session_id statement_id)
                     (fun tr => get_statement env tr session_id statement_id) ;;
    let state := State response in
    if bool_decide (state = "AVAILABLE") then
      let output := default ∅ (Output response) in
      let status := default "" (output !! "Status") in
      if bool_decide (lower status = "error")
      then raise (output_error output)
      else ret VNone
    else if bool_decide (state = "CANCELLED") || bool_decide (state = "ERROR") then
      raise (state_error state)
    else
      call (ESleep (polling_interval self)) (fun _ => Return tt) ;;;
      again
  else raise timed_out.

Fixpoint poll_loop (steps : nat) (env : Env) (self : GluePythonJobHelper)
    (session_id : string) (statement_id : Z) (start_time : Q) : M value :=
  match steps with
  | O => still_running
  | S steps' =>
      poll_once env self session_id statement_id start_time
        (poll_loop steps' env self session_id statement_id start_time)
  end.

Definition _wait_for_statement_completion (steps : nat) (env : Env)
    (self : GluePythonJobHelper) (session_id : string) (statement_id : Z)
  : M value :=
  start_time <~ call ETime (fun tr => Return (time_time env tr)) ;;
  poll_loop steps env self session_id statement_id start_time.

(** *** [submit] *)

(** The [if packages:] block: the install statement, submitted and
    awaited. *)
Definition install_packages (steps : nat) (env : Env) (self : GluePythonJobHelper)
    (session_id : string) (pkgs : list constant) : M unit :=
  match pkgs with
  | [] => ret tt
  | _ :: _ =>
      install_statement_id <~ _run_statement env session_id (install_code pkgs) ;;
      _wait_for_statement_completion steps env self session_id install_statement_id ;;;
      ret tt
  end.

(** The main statement, submitted and awaited. *)
Definition run_model (steps : nat) (env : Env) (self : GluePythonJobHelper)
    (session_id : string) (compiled_code : string) : M unit :=
  statement_id <~ _run_statement env session_id compiled_code ;;
  _wait_for_statement_completion steps env self session_id statement_id ;;;
  ret tt.

(** The body of the [try]. *)
Definition submit_body (steps : nat) (env : Env) (self : GluePythonJobHelper)
    (session_id : string) (pkgs : list constant) (compiled_code : string)
  : M unit :=
  install_packages steps env self session_id pkgs ;;;
  run_model steps env self session_id compiled_code.

(** The [except Exception as e] clause. *)
Definition execution_failed (env : Env) (e : exn) : exn :=
  DbtRuntimeError ("Python model execution failed: " +:+ exn_str env e).

Definition submit (steps : nat) (env : Env) (self : GluePythonJobHelper)
    (compiled_code : string) : M unit :=
  session_id <~ call ECursor (fun _ => connection_cursor env) ;;
  code_packages <~ lift (_extract_packages_from_code (ast_parse env compiled_code)) ;;
  let pkgs := merge_packages env self code_packages in
  try_finally
    (try_except
       (submit_body steps env self session_id pkgs compiled_code)
       (fun e => raise (execution_failed env e)))
    (call EClose (connection_close env)).

(** The packages [submit] installs for a compiled code. *)
Definition scanned_packages (env : Env) (compiled_code : string) : list constant :=
  match _extract_packages_from_code (ast_parse env compiled_code) with
  | Return found => found
  | Raise _ => []
  end.

Definition packages_to_install (env : Env) (self : GluePythonJobHelper)
    (compiled_code : string) : list constant :=
  merge_packages env self (scanned_packages env compiled_code).

(** *** Observations on a list of calls *)

(** Seconds spent in [time.sleep]. *)
(** A sleep of negative length does not happen ([time.sleep] refuses it)
    and counts for nothing. *)
Definition sleep_of (e : event) : Z :=
  match e with ESleep seconds => Z.max 0 seconds | _ => 0 end.

Definition slept (tr : list event) : Z :=
  foldr (fun e total => sleep_of e + total) 0 tr.

(** The code of each [run_statement] call, in order. *)
Definition submitted (tr : list event) : list string :=
  omap (fun e => match e with ERunStatement _ code => Some code | _ => None end) tr.

(** Number of [connection.close()] calls. *)
Definition closes (tr : list event) : nat :=
  length (filter (fun e => e = EClose) tr).

(** The calls of the poll loop. *)
Definition poll_event (e : event) : Prop :=
  match e with
  | ETime | EGetStatement _ _ | ESleep _ => True
  | _ => False
  end.

(** The calls made between [connection.cursor()] and
    [connection.close()]. *)
Definition body_event (e : event) : Prop :=
  match e with
  | ECursor | EClose => False
  | _ => True
  end.

(** *** Assumptions on the clock *)

(** Readings never go back. *)
Definition monotone_clock (env : Env) : Prop :=
  ∀ tr tr', (time_time env tr <= time_time env (tr ++ tr'))%Q.

(** Sleeping takes at least the time asked for. *)
Definition advancing_clock (env : Env) : Prop :=
  ∀ tr tr', (time_time env tr + inject_Z (slept tr') <= time_time env (tr ++ tr'))%Q.

(** A simulated clock: time passes in [time.sleep], and only there. *)
Definition simulated_clock (env : Env) : Prop :=
  ∀ tr tr', (time_time env (tr ++ tr') == time_time env tr + inject_Z (slept tr'))%Q.

(** A state that ends neither branch of the poll loop. *)
Definition non_terminal (state : string) : Prop :=
  state ≠ "AVAILABLE" ∧ state ≠ "CANCELLED" ∧ state ≠ "ERROR".

(** Iterations after which the poll loop has certainly ended, when the
    clock advances. *)
Definition enough_steps (self : GluePythonJobHelper) : nat :=
  S (Z.to_nat (timeout self / polling_interval self + 1)).

(** *** Sample environments *)

(** A session that numbers statements from 0, answers [get_statement]
    by [answer], on a simulated clock starting at 0. *)
Definition sample_env (tree : node) (cursor : outcome string)
    (answer : list event -> Z -> outcome statement) (close : outcome unit) : Env :=
  {| ast_parse := fun _ => Return tree;
     set_order := fun keys => keys;
     set_order_perm := fun keys => Permutation_refl keys;
     DbtRuntimeError_str := fun msg => "Runtime Error" +:+ nl +:+ "  " +:+ msg;
     connection_cursor := cursor;
     run_statement := fun tr _ _ => Return (Z.of_nat (length (submitted tr)));
     get_statement := fun tr _ statement_id => answer tr statement_id;
     time_time := fun tr => inject_Z (slept tr);
     connection_close := fun _ => close |}.

Definition ok_output : gmap string string :=
  {[ "Status" := "ok"; "Data" := "{'text/plain': ''}" ]}.

Definition error_output : gmap string string :=
  {[ "Status" := "Error"; "ErrorName" := "ValueError";
     "ErrorValue" := "bad input"; "Traceback" := "[]" ]}.

Definition available (output : gmap string string) : outcome statement :=
  Return {| State := "AVAILABLE"; Output := Some output |}.

Definition in_state (state : string) : outcome statement :=
  Return {| State := state; Output := None |}.

(** The model of the end-to-end scenario: [config.packages = ["pandas"]],
    no timeout configured. *)
Definition pandas_model : parsed_model :=
  {| alias := "my_model"; schema := "analytics";
     config := {| config_packages := Some ["pandas"]; config_timeout := None |} |}.

(** A model that declares the packages [a] and [b]. *)
Definition ab_model : parsed_model :=
  {| alias := "m"; schema := "s";
     config := {| config_packages := Some ["a"; "b"]; config_timeout := None |} |}.

(** [print(1)] *)
Definition plain_tree : node :=
  module [expr_stmt (Call (Name "print") [Constant (CInt 1)] [])].

(** Every statement is [AVAILABLE] with a non-error output at once. *)
Definition env_all_ok : Env :=
  sample_env plain_tree (Return "session-1") (fun _ _ => available ok_output) (Return tt).

(** The install statement (id 0) ends in state [ERROR]. *)
Definition env_install_error : Env :=
  sample_env plain_tree (Return "session-1")
    (fun _ statement_id => if bool_decide (statement_id = 0) then in_state "ERROR"
                           else available ok_output)
    (Return tt).

(** Install succeeds, the main statement (id 1) reports an error payload. *)
Definition env_main_error : Env :=
  sample_env plain_tree (Return "session-1")
    (fun _ statement_id => if bool_decide (statement_id = 0) then available ok_output
                           else available error_output)
    (Return tt).

(** Statements stay [RUNNING] for ever. *)
Definition env_running : Env :=
  sample_env plain_tree (Return "session-1") (fun _ _ => in_state "RUNNING") (Return tt).

(** A model with a timeout of 25 seconds and no packages. *)
Definition short_model : parsed_model :=
  {| alias := "m"; schema := "s";
     config := {| config_packages := None; config_timeout := Some 25 |} |}.

(** A model with a timeout of 0. *)
Definition zero_model : parsed_model :=
  {| alias := "m"; schema := "s";
     config := {| config_packages := None; config_timeout := Some 0 |} |}.

(** *** Further observations on a list of calls *)

(** Number of [get_statement] calls. *)
Definition fetches (tr : list event) : nat :=
  length (omap (fun e => match e with
                         | EGetStatement _ statement_id => Some statement_id
                         | _ => None
                         end) tr).

(** [k] full turns of the poll loop for a statement: the clock is read,
    the status fetched, and the loop sleeps. *)
Definition rounds (session_id : string) (statement_id : Z) (seconds : Z) (k : nat)
  : list event :=
  concat (replicate k [ETime; EGetStatement session_id statement_id; ESleep seconds]).

(** A call that names a session names this one. *)
Definition uses_session (session_id : string) (e : event) : Prop :=
  match e with
  | ERunStatement s _ | EGetStatement s _ => s = session_id
  | _ => True
  end.

(** The least number of poll intervals that cover the timeout. *)
Definition intervals_to_timeout (self : GluePythonJobHelper) : Z :=
  (timeout self + polling_interval self - 1) / polling_interval self.

(** *** Further sample environments *)

(** Every statement is [RUNNING] for its first two fetches, then
    [AVAILABLE] with a non-error output. *)
Definition env_slow : Env :=
  sample_env plain_tree (Return "session-1")
    (fun tr _ => if (fetches tr <? 2)%nat then in_state "RUNNING"
                 else available ok_output)
    (Return tt).

(** Statements are [CANCELLED]. *)
Definition env_cancelled : Env :=
  sample_env plain_tree (Return "session-1") (fun _ _ => in_state "CANCELLED") (Return tt).

(** Statements are [AVAILABLE], with no [Output] in the response. *)
Definition env_no_output : Env :=
  sample_env plain_tree (Return "session-1") (fun _ _ => in_state "AVAILABLE") (Return tt).

(** The code carries [dbt.config(packages=["a","b"])]; the model declares
    nothing. *)
Definition env_scanned : Env :=
  sample_env tree_ab (Return "session-1") (fun _ _ => available ok_output) (Return tt).

(** The status fetch raises. *)
Definition env_fetch_fails : Env :=
  sample_env plain_tree (Return "session-1")
    (fun _ _ => Raise (PyException "ClientError" "throttled")) (Return tt).

(** [connection.close()] raises. *)
Definition env_close_fails : Env :=
  sample_env plain_tree (Return "session-1") (fun _ _ => available ok_output)
    (Raise (PyException "ClientError" "session is gone")).

(** [connection.cursor()] raises. *)
Definition env_cursor_fails : Env :=
  sample_env plain_tree (Raise (PyException "ClientError" "no session"))
    (fun _ _ => available ok_output) (Return tt).

(** Statements stay [RUNNING], and every status fetch takes 100 seconds:
    the clock shows the time slept and the time spent fetching. *)
Definition env_slow_fetch : Env :=
  {| ast_parse := fun _ => Return plain_tree;
     set_order := fun keys => keys;
     set_order_perm := fun keys => Permutation_refl keys;
     DbtRuntimeError_str := fun msg => "Runtime Error" +:+ nl +:+ "  " +:+ msg;
     connection_cursor := Return "session-1";
     run_statement := fun tr _ _ => Return (Z.of_nat (length (submitted tr)));
     get_statement := fun _ _ _ => in_state "RUNNING";
     time_time := fun tr => inject_Z (slept tr + 100 * Z.of_nat (fetches tr));
     connection_close := fun _ => Return tt |}.

(** The install statement (id 0) ends in state [ERROR], and
    [connection.close()] raises. *)
Definition env_error_close_fails : Env :=
  sample_env plain_tree (Return "session-1")
    (fun _ statement_id => if bool_decide (statement_id = 0) then in_state "ERROR"
                           else available ok_output)
    (Raise (PyException "ClientError" "session is gone")).

Definition bare_model : parsed_model :=
  {| alias := "m"; schema := "s";
     config := {| config_packages := None; config_timeout := None |} |}.

End Glue.

(** * Properties *)

Import PyAst Py Glue.

(** ** The tree walk *)

Lemma sum_list_with_map {A B} (f : B -> nat) (g : A -> B) (l : list A) :
  sum_list_with f (map g l) = sum_list_with (fun a => f (g a)) l.
Proof. induction l as [|a l IH]; [reflexivity|]. simpl. by rewrite IH. Qed.

Lemma node_size_children (n : node) :
  node_size n = S (sum_list_with node_size (iter_child_nodes n)).
Proof.
  destruct n as [func args keywords| | | | | |]; simpl; try lia.
  f_equal. f_equal. rewrite sum_list_with_app, sum_list_with_map. reflexivity.
Qed.

(** Once the step count covers the nodes in the queue, more steps change
    nothing: the walk ends because its queue is empty. *)
Lemma walk_queue_more (steps extra : nat) (todo : list node) :
  (sum_list_with node_size todo <= steps)%nat ->
  walk_queue (steps + extra) todo = walk_queue steps todo.
Proof.
  revert todo. induction steps as [|steps IH]; intros todo Hsize.
  - destruct todo as [|n rest]; [destruct extra; reflexivity|].
    simpl in Hsize. rewrite node_size_children in Hsize. lia.
  - destruct todo as [|n rest]; [reflexivity|].
    simpl. f_equal. apply IH.
    simpl in Hsize. rewrite node_size_children in Hsize.
    rewrite sum_list_with_app. lia.
Qed.

Lemma walk_steps_enough (tree : node) (extra : nat) :
  walk_queue (node_size tree + extra) [tree] = walk tree.
Proof. apply walk_queue_more. simpl. lia. Qed.

Lemma walk_queue_length (steps : nat) (todo : list node) :
  (sum_list_with node_size todo <= steps)%nat ->
  length (walk_queue steps todo) = sum_list_with node_size todo.
Proof.
  revert todo. induction steps as [|steps IH]; intros todo Hsize.
  - destruct todo as [|n rest]; [reflexivity|].
    simpl in Hsize. rewrite node_size_children in Hsize. lia.
  - destruct todo as [|n rest]; [reflexivity|].
    simpl in *. rewrite node_size_children in *.
    rewrite IH; rewrite sum_list_with_app; lia.
Qed.

(** The walk yields as many nodes as the tree has. *)
Lemma walk_length (tree : node) : length (walk tree) = node_size tree.
Proof. unfold walk. rewrite walk_queue_length; simpl; lia. Qed.

Lemma walk_head (tree : node) : ∃ rest, walk tree = tree :: rest.
Proof.
  unfold walk. rewrite (node_size_children tree). simpl. eauto.
Qed.

(** ** The scan for [dbt.config(packages=[...])] *)

Lemma is_dbt_config_spec (n : node) :
  is_dbt_config n = true ↔ ∃ args keywords, n = dbt_config args keywords.
Proof.
  split.
  - destruct n as [func args keywords| | | | | |]; try discriminate.
    destruct func as [| value attr | | | | |]; try discriminate.
    destruct value as [| | id | | | |]; try discriminate.
    simpl. intros H. apply andb_true_iff in H as [H1 H2].
    apply bool_decide_eq_true in H1, H2. subst. eauto.
  - intros (args & keywords & ->). reflexivity.
Qed.

Lemma scan_keywords_none (keywords : list (option string * node)) :
  (∀ kw, kw ∈ keywords -> ¬ packages_list kw) ->
  scan_keywords keywords = None.
Proof.
  induction keywords as [|[arg value] rest IH]; intros Hno; [reflexivity|].
  assert (Hrest : scan_keywords rest = None).
  { apply IH. intros kw Hin. apply Hno. by right. }
  simpl. destruct value; try exact Hrest.
  case_bool_decide as Harg; [|exact Hrest].
  exfalso. apply (Hno (arg, List elts)); [by left|]. subst arg. by eexists.
Qed.

Lemma scan_keywords_some (keywords : list (option string * node)) found :
  scan_keywords keywords = Some found ->
  ∃ kw, kw ∈ keywords ∧ packages_list kw.
Proof.
  induction keywords as [|[arg value] rest IH]; [discriminate|].
  simpl. intros H.
  assert (Hrest : scan_keywords rest = Some found ->
                  ∃ kw, kw ∈ (arg, value) :: rest ∧ packages_list kw).
  { intros Hr. destruct (IH Hr) as (kw & Hin & Hkw). exists kw. split; [by right|done]. }
  destruct value; try (by apply Hrest).
  case_bool_decide as Harg; [|by apply Hrest].
  subst arg. eexists. split; [by left|]. by eexists.
Qed.

(** The first [packages=[...]] keyword of a call decides. *)
Lemma scan_keywords_first (before after : list (option string * node)) elts :
  (∀ kw, kw ∈ before -> ¬ packages_list kw) ->
  scan_keywords (before ++ (Some "packages", List elts) :: after)
  = Some (constant_values elts).
Proof.
  induction before as [|[arg value] rest IH]; intros Hno.
  - reflexivity.
  - assert (Hrest : scan_keywords (rest ++ (Some "packages", List elts) :: after)
                    = Some (constant_values elts)).
    { apply IH. intros kw Hin. apply Hno. by right. }
    simpl. destruct value; try exact Hrest.
    case_bool_decide as Harg; [|exact Hrest].
    exfalso. apply (Hno (arg, List elts0)); [by left|]. subst arg. by eexists.
Qed.

(** A node that is no [dbt.config] call with a [packages=[...]] keyword
    does not end the scan. *)
Lemma scan_nodes_skip (before rest : list node) :
  (∀ n, n ∈ before -> ¬ has_packages_list n) ->
  scan_nodes (before ++ rest) = scan_nodes rest.
Proof.
  induction before as [|n before IH]; intros Hno; [reflexivity|].
  assert (Hrest : scan_nodes (before ++ rest) = scan_nodes rest).
  { apply IH. intros m Hin. apply Hno. by right. }
  simpl. destruct (is_dbt_config n) eqn:Hcall; [|exact Hrest].
  destruct (scan_keywords (keywords_of n)) as [found|] eqn:Hscan; [|exact Hrest].
  exfalso. apply (Hno n); [by left|].
  apply is_dbt_config_spec in Hcall as (args & keywords & ->).
  apply scan_keywords_some in Hscan as (kw & Hin & Hkw).
  exists args, keywords, kw. done.
Qed.

Lemma scan_nodes_none (nodes : list node) :
  (∀ n, n ∈ nodes -> ¬ has_packages_list n) ->
  scan_nodes nodes = None.
Proof.
  intros Hno. rewrite <- (app_nil_r nodes). by rewrite scan_nodes_skip.
Qed.

Lemma scan_nodes_first (before after : list node) args kbefore kafter elts :
  (∀ n, n ∈ before -> ¬ has_packages_list n) ->
  (∀ kw, kw ∈ kbefore -> ¬ packages_list kw) ->
  scan_nodes (before
              ++ dbt_config args (kbefore ++ (Some "packages", List elts) :: kafter)
              :: after)
  = Some (constant_values elts).
Proof.
  intros Hbefore Hkw. rewrite scan_nodes_skip by done.
  simpl. by rewrite scan_keywords_first.
Qed.

(** The comprehension keeps the constants, in order, and nothing else. *)
Lemma constant_values_filter (elts : list node) :
  map Constant (constant_values elts) = filter (fun n => is_constant n = true) elts.
Proof.
  induction elts as [|elt rest IH]; [reflexivity|].
  destruct elt;
    try (rewrite filter_cons_False by (simpl; discriminate); exact IH).
  rewrite filter_cons_True by reflexivity. simpl. by rewrite IH.
Qed.

Lemma constant_values_map (values : list constant) :
  constant_values (map Constant values) = values.
Proof. induction values as [|v rest IH]; [reflexivity|]. simpl. by rewrite IH. Qed.

(** The scanner raises on no input. *)
Lemma extract_packages_returns (parsed : outcome node) :
  ∃ found, _extract_packages_from_code parsed = Return found.
Proof.
  destruct parsed as [tree|e]; simpl; [|eauto].
  destruct (scan_nodes (walk tree)); eauto.
Qed.

(** Membership in an explicit list of nodes, case by case. *)
Ltac each_node H :=
  repeat (apply elem_of_cons in H as [->|H]); [..|by apply elem_of_nil in H].

Ltac not_packages_call :=
  let args := fresh "args" in
  let keywords := fresh "keywords" in
  let kw := fresh "kw" in
  let Heq := fresh "Heq" in
  intros (args & keywords & kw & Heq & _); discriminate Heq.

(** C5, as the code has it. When the tree of the source text parses and
    the first [dbt.config] call with a [packages=[...]] keyword, in walk
    order, is [dbt.config(packages=["a","b"])], the result is exactly
    ["a"; "b"]. A text with no such call gives the empty list, and so does
    every input on which [ast.parse] raises; no input makes the function
    raise. *)
Theorem extract_packages_first_literal_list :
  (∀ tree before after args kbefore kafter,
      walk tree = before
                  ++ dbt_config args (kbefore
                                      ++ (Some "packages", List [str "a"; str "b"])
                                      :: kafter)
                  :: after ->
      (∀ n, n ∈ before -> ¬ has_packages_list n) ->
      (∀ kw, kw ∈ kbefore -> ¬ packages_list kw) ->
      _extract_packages_from_code (Return tree) = Return [CStr "a"; CStr "b"])
  ∧ (∀ tree, (∀ n, n ∈ walk tree -> ¬ has_packages_list n) ->
      _extract_packages_from_code (Return tree) = Return [])
  ∧ (∀ e, _extract_packages_from_code (Raise e) = Return [])
  ∧ (∀ parsed, ∃ found, _extract_packages_from_code parsed = Return found).
Proof.
  repeat split.
  - intros tree before after args kbefore kafter Hwalk Hbefore Hkw.
    unfold _extract_packages_from_code.
    rewrite Hwalk, scan_nodes_first by done. reflexivity.
  - intros tree Hno. unfold _extract_packages_from_code.
    by rewrite scan_nodes_none.
  - apply extract_packages_returns.
Qed.

Lemma extract_packages_first_literal_list_witness :
  _extract_packages_from_code (Return tree_model) = Return [CStr "a"; CStr "b"].
Proof.
  apply (proj1 extract_packages_first_literal_list tree_model
           (take 7 (walk tree_model)) (drop 8 (walk tree_model))
           [] [(Some "materialized", str "table")] []).
  - reflexivity.
  - intros n Hin. vm_compute in Hin. each_node Hin; not_packages_call.
  - intros kw Hin. each_node Hin. intros [elts Heq]. discriminate Heq.
Defined.

(** C5 as stated fails: a text that contains the call after another
    [dbt.config(packages=[...])] yields the list of the earlier call. *)
Lemma extract_packages_two_calls_counterexample :
  call_ab ∈ walk tree_two_calls
  ∧ _extract_packages_from_code (Return tree_two_calls) ≠ Return [CStr "a"; CStr "b"].
Proof.
  split.
  - apply list_elem_of_lookup. exists 4%nat. reflexivity.
  - vm_compute. discriminate.
Qed.

(** C8. When the only [dbt.config] call of the text passes [packages] as
    something other than a list display, the result is empty. *)
Theorem extract_packages_non_list_ignored :
  ∀ tree before after args keywords,
    walk tree = before ++ dbt_config args keywords :: after ->
    (∀ n, n ∈ before ++ after -> ¬ ∃ args' keywords', n = dbt_config args' keywords') ->
    (∀ value, (Some "packages", value) ∈ keywords -> ∀ elts, value ≠ List elts) ->
    _extract_packages_from_code (Return tree) = Return [].
Proof.
  intros tree before after args keywords Hwalk Honly Hvalue.
  unfold _extract_packages_from_code. rewrite scan_nodes_none; [done|].
  intros n Hin (args' & keywords' & kw & -> & Hkw & elts & ->).
  rewrite Hwalk in Hin. apply elem_of_app in Hin as [Hin|Hin].
  - apply (Honly (dbt_config args' keywords')); [apply elem_of_app; by left|eauto].
  - apply elem_of_cons in Hin as [Heq|Hin].
    + injection Heq as -> ->. by apply (Hvalue (List elts) Hkw elts).
    + apply (Honly (dbt_config args' keywords')); [apply elem_of_app; by right|eauto].
Qed.

Lemma extract_packages_non_list_ignored_witness :
  _extract_packages_from_code (Return tree_variable) = Return [].
Proof.
  apply (extract_packages_non_list_ignored tree_variable
           (take 5 (walk tree_variable)) (drop 6 (walk tree_variable))
           [] [(Some "packages", Name "pkgs")]).
  - reflexivity.
  - intros n Hin. vm_compute in Hin.
    each_node Hin; intros (args' & keywords' & Heq); discriminate Heq.
  - intros value Hin. apply elem_of_cons in Hin as [Heq|Hin].
    + injection Heq as ->. discriminate.
    + by apply elem_of_nil in Hin.
Defined.

(** C9. The first [dbt.config] call with a [packages=[...]] keyword, in
    walk order, decides alone: the result holds the values of the constant
    elements of its list, of whatever type and in order, the other
    elements are dropped, and what follows the call in the walk is never
    read. *)
Theorem extract_packages_first_match_constants :
  ∀ tree before after args kbefore kafter elts,
    walk tree = before
                ++ dbt_config args (kbefore ++ (Some "packages", List elts) :: kafter)
                :: after ->
    (∀ n, n ∈ before -> ¬ has_packages_list n) ->
    (∀ kw, kw ∈ kbefore -> ¬ packages_list kw) ->
    ∃ found,
      _extract_packages_from_code (Return tree) = Return found
      ∧ map Constant found = filter (fun n => is_constant n = true) elts
      ∧ ∀ tree' after',
          walk tree' = before
                       ++ dbt_config args (kbefore ++ (Some "packages", List elts) :: kafter)
                       :: after' ->
          _extract_packages_from_code (Return tree') = Return found.
Proof.
  intros tree before after args kbefore kafter elts Hwalk Hbefore Hkw.
  exists (constant_values elts). repeat split.
  - unfold _extract_packages_from_code.
    rewrite Hwalk, scan_nodes_first by done. reflexivity.
  - apply constant_values_filter.
  - intros tree' after' Hwalk'. unfold _extract_packages_from_code.
    rewrite Hwalk', scan_nodes_first by done. reflexivity.
Qed.

Lemma extract_packages_first_match_constants_witness :
  ∃ found, _extract_packages_from_code (Return tree_mixed) = Return found
           ∧ found = [CStr "a"; CInt 1].
Proof.
  destruct (extract_packages_first_match_constants tree_mixed
              (take 3 (walk tree_mixed)) (drop 4 (walk tree_mixed))
              [] [] [] [str "a"; Name "extra"; Constant (CInt 1)])
    as (found & Hfound & Hvalues & _).
  - reflexivity.
  - intros n Hin. vm_compute in Hin. each_node Hin; not_packages_call.
  - intros kw Hin. by apply elem_of_nil in Hin.
  - exists found. split; [exact Hfound|].
    vm_compute in Hfound. by injection Hfound as <-.
Defined.

(** ** Python equality and the package merge *)

Lemma py_eqb_refl (x : constant) : py_eqb x x = true.
Proof. destruct x; simpl; try reflexivity; by apply bool_decide_eq_true. Qed.

Lemma py_eqb_sym (x y : constant) : py_eqb x y = py_eqb y x.
Proof.
  destruct x, y; simpl; try reflexivity; apply bool_decide_ext; split; congruence.
Qed.

Lemma py_eqb_trans (x y z : constant) :
  py_eqb x y = true -> py_eqb y z = true -> py_eqb x z = true.
Proof.
  destruct x, y, z; simpl; try discriminate; try reflexivity;
    rewrite ?bool_decide_eq_true; intros; subst; try reflexivity;
    repeat match goal with b : bool |- _ => destruct b end;
    simpl in *; congruence.
Qed.

Lemma py_eqb_str (s : string) (y : constant) :
  py_eqb (CStr s) y = true -> y = CStr s.
Proof. destruct y; simpl; try discriminate. intros H. apply bool_decide_eq_true in H. by subst. Qed.

Lemma py_mem_spec (x : constant) (keys : list constant) :
  py_mem x keys = true ↔ ∃ y, y ∈ keys ∧ py_eqb x y = true.
Proof.
  unfold py_mem. rewrite existsb_exists. split.
  - intros (y & Hin & Heq). exists y. by rewrite list_elem_of_In.
  - intros (y & Hin & Heq). exists y. by rewrite <- list_elem_of_In.
Qed.

Lemma py_mem_app (x : constant) (l1 l2 : list constant) :
  py_mem x (l1 ++ l2) = py_mem x l1 || py_mem x l2.
Proof. apply existsb_app. Qed.

Lemma py_mem_elem (x : constant) (keys : list constant) :
  x ∈ keys -> py_mem x keys = true.
Proof. intros Hin. apply py_mem_spec. exists x. split; [done|apply py_eqb_refl]. Qed.

(** Equal keys are members of the same key lists. *)
Lemma py_mem_equal (x y : constant) (keys : list constant) :
  py_eqb x y = true -> py_mem x keys = py_mem y keys.
Proof.
  intros Heq. apply eq_true_iff_eq. rewrite !py_mem_spec.
  split; intros (z & Hin & Hz); exists z; split; try done.
  - apply py_eqb_trans with x; [by rewrite py_eqb_sym|done].
  - by apply py_eqb_trans with y.
Qed.

Lemma py_mem_permutation (x : constant) (l1 l2 : list constant) :
  l1 ≡ₚ l2 -> py_mem x l1 = py_mem x l2.
Proof.
  intros Hperm. apply eq_true_iff_eq. rewrite !py_mem_spec.
  split; intros (y & Hin & Hy); exists y; split; try done.
  - by rewrite <- Hperm.
  - by rewrite Hperm.
Qed.

Lemma py_mem_setdefault (x k : constant) (keys : list constant) :
  py_mem x (dict_setdefault keys k) = py_mem x keys || py_eqb x k.
Proof.
  unfold dict_setdefault. destruct (py_mem k keys) eqn:Hk.
  - destruct (py_eqb x k) eqn:Hxk; [|by rewrite orb_false_r].
    rewrite (py_mem_equal x k) by done. by rewrite Hk.
  - rewrite py_mem_app. simpl. by rewrite orb_false_r.
Qed.

Lemma py_mem_fold_setdefault (x : constant) (iterable keys : list constant) :
  py_mem x (fold_left dict_setdefault iterable keys)
  = py_mem x keys || py_mem x iterable.
Proof.
  revert keys. induction iterable as [|k rest IH]; intros keys; simpl.
  - by rewrite orb_false_r.
  - rewrite IH, py_mem_setdefault. by rewrite orb_assoc.
Qed.

Lemma elem_of_fold_setdefault (y : constant) (iterable keys : list constant) :
  y ∈ fold_left dict_setdefault iterable keys -> y ∈ keys ∨ y ∈ iterable.
Proof.
  revert keys. induction iterable as [|k rest IH]; intros keys; simpl; [by left|].
  intros Hin. apply IH in Hin as [Hin|Hin]; [|right; by right].
  unfold dict_setdefault in Hin. destruct (py_mem k keys); [by left|].
  apply elem_of_app in Hin as [Hin|Hin]; [by left|].
  apply list_elem_of_singleton in Hin as ->. right. by left.
Qed.

Lemma py_distinct_setdefault (keys : list constant) (k : constant) :
  py_distinct keys -> py_distinct (dict_setdefault keys k).
Proof.
  intros [Hnodup Hpair]. unfold dict_setdefault.
  destruct (py_mem k keys) eqn:Hk; [done|].
  assert (Hfresh : ∀ x, x ∈ keys -> py_eqb x k = false).
  { intros x Hin. destruct (py_eqb x k) eqn:Hxk; [|done].
    rewrite <- Hk. symmetry. apply py_mem_spec. exists x.
    split; [done|by rewrite py_eqb_sym]. }
  split.
  - apply NoDup_app. repeat split; [done| |apply NoDup_singleton].
    intros x Hin Hx. apply list_elem_of_singleton in Hx as ->.
    specialize (Hfresh k Hin). by rewrite py_eqb_refl in Hfresh.
  - intros x y Hx Hy Hxy.
    apply elem_of_app in Hx as [Hx|Hx]; apply elem_of_app in Hy as [Hy|Hy].
    + by apply Hpair.
    + apply list_elem_of_singleton in Hy as ->. by rewrite Hfresh in Hxy.
    + apply list_elem_of_singleton in Hx as ->.
      rewrite py_eqb_sym, Hfresh in Hxy; done.
    + apply list_elem_of_singleton in Hx as ->.
      by apply list_elem_of_singleton in Hy as ->.
Qed.

Lemma py_distinct_fold_setdefault (iterable keys : list constant) :
  py_distinct keys -> py_distinct (fold_left dict_setdefault iterable keys).
Proof.
  revert keys. induction iterable as [|k rest IH]; intros keys Hkeys; [done|].
  simpl. by apply IH, py_distinct_setdefault.
Qed.

Lemma py_distinct_nil : py_distinct [].
Proof. split; [apply NoDup_nil_2|]. intros x y Hx. by apply elem_of_nil in Hx. Qed.

Lemma dict_fromkeys_distinct (iterable : list constant) :
  py_distinct (dict_fromkeys iterable).
Proof. apply py_distinct_fold_setdefault, py_distinct_nil. Qed.

(** Adding keys that are already pairwise different only appends them:
    a set built from the keys of the mapping has those keys. *)
Lemma fold_setdefault_distinct (iterable keys : list constant) :
  py_distinct (keys ++ iterable) ->
  fold_left dict_setdefault iterable keys = keys ++ iterable.
Proof.
  revert keys. induction iterable as [|k rest IH]; intros keys Hd; simpl.
  - by rewrite app_nil_r.
  - assert (Hk : py_mem k keys = false).
    { destruct (py_mem k keys) eqn:Hk; [|done]. exfalso.
      apply py_mem_spec in Hk as (y & Hin & Hy).
      destruct Hd as [Hnodup Hpair].
      assert (k = y) as <-.
      { apply Hpair; [|apply elem_of_app; by left|done].
        apply elem_of_app. right. by left. }
      apply NoDup_app in Hnodup as (_ & Hsep & _).
      apply (Hsep k Hin). by left. }
    unfold dict_setdefault at 2. rewrite Hk.
    rewrite IH; rewrite <- app_assoc; done.
Qed.

Lemma py_set_dict_fromkeys (iterable : list constant) :
  py_set (dict_fromkeys iterable) = dict_fromkeys iterable.
Proof.
  unfold py_set. rewrite fold_setdefault_distinct; [done|].
  apply dict_fromkeys_distinct.
Qed.

Lemma effective_packages_fromkeys (declared scanned : list constant) :
  effective_packages declared scanned = dict_fromkeys (declared ++ scanned).
Proof. apply py_set_dict_fromkeys. Qed.

Lemma py_mem_effective (x : constant) (declared scanned : list constant) :
  py_mem x (effective_packages declared scanned)
  = py_mem x declared || py_mem x scanned.
Proof.
  rewrite effective_packages_fromkeys. unfold dict_fromkeys.
  rewrite py_mem_fold_setdefault, py_mem_app. reflexivity.
Qed.

(** A second pass over the same keys adds nothing. *)
Lemma fold_setdefault_present (iterable keys : list constant) :
  (∀ k, k ∈ iterable -> py_mem k keys = true) ->
  fold_left dict_setdefault iterable keys = keys.
Proof.
  induction iterable as [|k rest IH]; intros Hall; [done|].
  simpl. unfold dict_setdefault at 2. rewrite Hall by (by left).
  apply IH. intros k' Hin. apply Hall. by right.
Qed.

Lemma dict_fromkeys_twice (l : list constant) :
  dict_fromkeys (l ++ l) = dict_fromkeys l.
Proof.
  unfold dict_fromkeys. rewrite fold_left_app.
  apply fold_setdefault_present. intros k Hin.
  rewrite py_mem_fold_setdefault. simpl. by apply py_mem_elem.
Qed.

(** On strings Python's equality is equality of the strings, so the
    effective set holds exactly the names given. *)
Lemma elem_of_effective_str (declared scanned : list string) (x : constant) :
  x ∈ effective_packages (map CStr declared) (map CStr scanned)
  ↔ x ∈ map CStr (declared ++ scanned).
Proof.
  rewrite effective_packages_fromkeys, <- map_app.
  set (names := declared ++ scanned). split.
  - intros Hin. apply elem_of_fold_setdefault in Hin as [Hin|Hin]; [|done].
    by apply elem_of_nil in Hin.
  - intros Hin.
    assert (Hmem : py_mem x (dict_fromkeys (map CStr names)) = true).
    { unfold dict_fromkeys. rewrite py_mem_fold_setdefault. simpl.
      by apply py_mem_elem. }
    apply py_mem_spec in Hmem as (y & Hy & Hxy).
    apply list_elem_of_fmap in Hin as (s & -> & _).
    apply py_eqb_str in Hxy. by subst y.
Qed.

Lemma py_distinct_permutation (l1 l2 : list constant) :
  l1 ≡ₚ l2 -> py_distinct l1 -> py_distinct l2.
Proof.
  intros Hperm [Hnodup Hpair]. split.
  - by rewrite <- Hperm.
  - intros x y Hx Hy. rewrite <- Hperm in Hx, Hy. by apply Hpair.
Qed.

Lemma effective_packages_distinct (declared scanned : list constant) :
  py_distinct (effective_packages declared scanned).
Proof. rewrite effective_packages_fromkeys. apply dict_fromkeys_distinct. Qed.

(** C6. The packages to install are the union of the declared and the
    scanned ones, each once: membership is that of the two lists together,
    no two entries are equal, ["a";"b"] and ["b";"c"] give a, b and c, the
    two lists can be swapped, and a list merged with itself is the list
    merged with nothing. *)
Theorem merge_packages_is_set_union :
  (∀ env self scanned,
      py_distinct (merge_packages env self scanned)
      ∧ ∀ x, py_mem x (merge_packages env self scanned)
             = py_mem x (map CStr (packages self)) || py_mem x scanned)
  ∧ (∀ env self,
        packages self = ["a"; "b"] ->
        merge_packages env self [CStr "b"; CStr "c"] ≡ₚ [CStr "a"; CStr "b"; CStr "c"])
  ∧ (∀ declared scanned x,
        py_mem x (effective_packages declared scanned)
        = py_mem x (effective_packages scanned declared))
  ∧ (∀ declared scanned : list string,
        effective_packages (map CStr declared) (map CStr scanned)
        ≡ₚ effective_packages (map CStr scanned) (map CStr declared))
  ∧ (∀ l, effective_packages l l = effective_packages l []).
Proof.
  split; [|split; [|split; [|split]]].
  - intros env self scanned. unfold merge_packages. split.
    + eapply py_distinct_permutation; [symmetry; apply set_order_perm|].
      apply effective_packages_distinct.
    + intros x. rewrite (py_mem_permutation x _ _ (set_order_perm env _)).
      apply py_mem_effective.
  - intros env self Hdeclared. unfold merge_packages.
    rewrite set_order_perm, Hdeclared. reflexivity.
  - intros declared scanned x. rewrite !py_mem_effective. apply orb_comm.
  - intros declared scanned. apply NoDup_Permutation.
    + apply effective_packages_distinct.
    + apply effective_packages_distinct.
    + intros x. rewrite !elem_of_effective_str, !map_app, !elem_of_app. tauto.
  - intros l. rewrite !effective_packages_fromkeys, app_nil_r.
    apply dict_fromkeys_twice.
Qed.

Lemma merge_packages_is_set_union_witness :
  merge_packages env_all_ok (__init__ ab_model) [CStr "b"; CStr "c"]
  ≡ₚ [CStr "a"; CStr "b"; CStr "c"].
Proof.
  apply (proj1 (proj2 merge_packages_is_set_union) env_all_ok (__init__ ab_model)).
  reflexivity.
Defined.

(** ** The poll loop *)

Lemma Qltb_lt (x y : Q) : Qltb x y = true ↔ (x < y)%Q.
Proof.
  unfold Qltb. rewrite negb_true_iff. split.
  - intros H. apply Qnot_le_lt. intros Hle.
    apply Qle_bool_iff in Hle. congruence.
  - intros H. destruct (Qle_bool y x) eqn:Hle; [|done].
    apply Qle_bool_iff in Hle. exfalso. by apply (Qlt_not_le x y).
Qed.

Lemma Qltb_ge (x y : Q) : Qltb x y = false ↔ (y <= x)%Q.
Proof.
  unfold Qltb. rewrite negb_false_iff. apply Qle_bool_iff.
Qed.

Lemma slept_app (tr tr' : list event) : slept (tr ++ tr') = slept tr + slept tr'.
Proof.
  unfold slept. induction tr as [|e tr IH]; simpl; [lia|]. rewrite IH. lia.
Qed.

Lemma slept_nonneg (tr : list event) : 0 <= slept tr.
Proof.
  unfold slept. induction tr as [|e tr IH]; simpl; [lia|].
  destruct e; simpl; lia.
Qed.

Lemma simulated_clock_advancing (env : Env) :
  simulated_clock env -> advancing_clock env.
Proof. intros Hsim tr tr'. rewrite (Hsim tr tr'). apply Qle_refl. Qed.

Lemma advancing_clock_monotone (env : Env) :
  advancing_clock env -> monotone_clock env.
Proof.
  intros Hadv tr tr'. eapply Qle_trans; [|apply (Hadv tr tr')].
  pose proof (slept_nonneg tr') as Hs.
  rewrite <- (Qplus_0_r (time_time env tr)) at 1.
  apply Qplus_le_r. change 0%Q with (inject_Z 0). by rewrite <- Zle_Qle.
Qed.

Lemma wait_unfold steps env self session_id statement_id tr :
  _wait_for_statement_completion steps env self session_id statement_id tr
  = poll_loop steps env self session_id statement_id (time_time env tr) (tr ++ [ETime]).
Proof. reflexivity. Qed.

Section PollLoop.
Variables (env : Env) (self : GluePythonJobHelper).
Variables (session_id : string) (statement_id : Z) (start_time : Q).

Let poll (steps : nat) := poll_loop steps env self session_id statement_id start_time.
Let in_time (tr : list event) : bool :=
  Qltb (time_time env tr - start_time) (inject_Z (timeout self)).
Let fetch := EGetStatement session_id statement_id.

Lemma poll_timeout steps tr :
  in_time tr = false ->
  poll (S steps) tr = Some (Raise timed_out, tr ++ [ETime]).
Proof.
  subst poll in_time. simpl. unfold poll_once, bind, call, raise.
  intros ->. reflexivity.
Qed.

Lemma poll_fetch_raises steps tr e :
  in_time tr = true ->
  get_statement env (tr ++ [ETime]) session_id statement_id = Raise e ->
  poll (S steps) tr = Some (Raise e, tr ++ [ETime; fetch]).
Proof.
  subst poll in_time fetch. simpl. unfold poll_once, bind, call.
  intros -> ->. by rewrite <- app_assoc.
Qed.

Lemma poll_available_error steps tr response :
  in_time tr = true ->
  get_statement env (tr ++ [ETime]) session_id statement_id = Return response ->
  State response = "AVAILABLE" ->
  lower (default "" (default ∅ (Output response) !! "Status")) = "error" ->
  poll (S steps) tr
  = Some (Raise (output_error (default ∅ (Output response))), tr ++ [ETime; fetch]).
Proof.
  subst poll in_time fetch. simpl. unfold poll_once, bind, call, raise.
  intros -> -> Hstate Hstatus.
  rewrite bool_decide_eq_true_2 by done. rewrite bool_decide_eq_true_2 by done.
  by rewrite <- app_assoc.
Qed.

Lemma poll_available_ok steps tr response :
  in_time tr = true ->
  get_statement env (tr ++ [ETime]) session_id statement_id = Return response ->
  State response = "AVAILABLE" ->
  lower (default "" (default ∅ (Output response) !! "Status")) ≠ "error" ->
  poll (S steps) tr = Some (Return VNone, tr ++ [ETime; fetch]).
Proof.
  subst poll in_time fetch. simpl. unfold poll_once, bind, call, ret.
  intros -> -> Hstate Hstatus.
  rewrite bool_decide_eq_true_2 by done. rewrite bool_decide_eq_false_2 by done.
  by rewrite <- app_assoc.
Qed.

Lemma poll_state_failed steps tr response :
  in_time tr = true ->
  get_statement env (tr ++ [ETime]) session_id statement_id = Return response ->
  State response = "CANCELLED" ∨ State response = "ERROR" ->
  poll (S steps) tr
  = Some (Raise (state_error (State response)), tr ++ [ETime; fetch]).
Proof.
  subst poll in_time fetch. simpl. unfold poll_once, bind, call, raise.
  intros -> -> Hstate.
  rewrite bool_decide_eq_false_2 by (destruct Hstate as [-> | ->]; discriminate).
  assert (bool_decide (State response = "CANCELLED")
          || bool_decide (State response = "ERROR") = true) as ->.
  { apply orb_true_iff. rewrite !bool_decide_eq_true. done. }
  by rewrite <- app_assoc.
Qed.

Lemma poll_again steps tr response :
  in_time tr = true ->
  get_statement env (tr ++ [ETime]) session_id statement_id = Return response ->
  non_terminal (State response) ->
  poll (S steps) tr
  = poll steps (tr ++ [ETime; fetch; ESleep (polling_interval self)]).
Proof.
  subst poll in_time fetch. simpl. unfold poll_once, bind, call.
  intros -> -> (Ha & Hc & He).
  rewrite bool_decide_eq_false_2 by done.
  rewrite !(bool_decide_eq_false_2 _) by done. simpl.
  f_equal. by rewrite <- !app_assoc.
Qed.

(** One iteration either ends the loop, whatever budget is left, or
    sleeps and goes round again. *)
Lemma poll_cases tr :
  (∃ r suffix, Forall poll_event suffix
               ∧ ∀ steps, poll (S steps) tr = Some (r, tr ++ suffix))
  ∨ (in_time tr = true
     ∧ ∀ steps, poll (S steps) tr
                = poll steps (tr ++ [ETime; fetch; ESleep (polling_interval self)])).
Proof.
  destruct (in_time tr) eqn:Htime.
  2:{ left. exists (Raise timed_out), [ETime]. split; [by repeat constructor|].
      intros steps. by apply poll_timeout. }
  destruct (get_statement env (tr ++ [ETime]) session_id statement_id)
    as [response|e] eqn:Hget.
  2:{ left. exists (Raise e), [ETime; fetch]. split; [by repeat constructor|].
      intros steps. by apply poll_fetch_raises. }
  destruct (decide (State response = "AVAILABLE")) as [Ha|Ha].
  { left.
    destruct (decide (lower (default "" (default ∅ (Output response) !! "Status"))
                      = "error")) as [Hs|Hs].
    - eexists _, [ETime; fetch]. split; [by repeat constructor|].
      intros steps. by apply (poll_available_error steps tr response).
    - eexists _, [ETime; fetch]. split; [by repeat constructor|].
      intros steps. by apply (poll_available_ok steps tr response). }
  destruct (decide (State response = "CANCELLED")) as [Hc|Hc].
  { left. eexists _, [ETime; fetch]. split; [by repeat constructor|].
    intros steps. apply (poll_state_failed steps tr response); auto. }
  destruct (decide (State response = "ERROR")) as [He|He].
  { left. eexists _, [ETime; fetch]. split; [by repeat constructor|].
    intros steps. apply (poll_state_failed steps tr response); auto. }
  right. split; [done|]. intros steps. by apply (poll_again steps tr response).
Qed.

(** What the loop adds to the calls made are calls of the loop. *)
Lemma poll_trace steps tr r tr' :
  poll steps tr = Some (r, tr') ->
  ∃ suffix, tr' = tr ++ suffix ∧ Forall poll_event suffix.
Proof.
  revert tr. induction steps as [|steps IH]; intros tr Hrun; [discriminate|].
  destruct (poll_cases tr) as [(r0 & suffix & Hev & Hend)|[_ Hnext]].
  - rewrite Hend in Hrun. injection Hrun as <- <-. eauto.
  - rewrite Hnext in Hrun. apply IH in Hrun as (suffix & -> & Hev).
    exists ([ETime; fetch; ESleep (polling_interval self)] ++ suffix).
    split; [by rewrite app_assoc|].
    apply Forall_app. split; [by repeat constructor|done].
Qed.

(** A result does not depend on the budget that was left over. *)
Lemma poll_more steps extra tr res :
  poll steps tr = Some res -> poll (steps + extra) tr = Some res.
Proof.
  revert tr. induction steps as [|steps IH]; intros tr Hrun; [discriminate|].
  destruct (poll_cases tr) as [(r0 & suffix & Hev & Hend)|[_ Hnext]].
  - rewrite Hend in Hrun. simpl. by rewrite Hend.
  - rewrite Hnext in Hrun. change (S steps + extra)%nat with (S (steps + extra)).
    rewrite Hnext. by apply IH.
Qed.
End PollLoop.

(** ** Termination of the poll loop *)

Lemma enough_steps_cover (self : GluePythonJobHelper) :
  0 < polling_interval self ->
  timeout self <= Z.of_nat (Z.to_nat (timeout self / polling_interval self + 1))
                  * polling_interval self.
Proof.
  intros Hd.
  pose proof (Z.mul_succ_div_gt (timeout self) (polling_interval self) Hd) as Hgt.
  set (q := timeout self / polling_interval self) in *.
  assert (Z.of_nat (Z.to_nat (q + 1)) = Z.max 0 (q + 1)) as -> by lia.
  nia.
Qed.

Lemma in_time_elapsed (env : Env) (timeout_s : Z) (tr suffix : list event) :
  advancing_clock env ->
  Qltb (time_time env (tr ++ suffix) - time_time env tr) (inject_Z timeout_s) = true ->
  slept suffix < timeout_s.
Proof.
  intros Hadv Hin. apply Qltb_lt in Hin. rewrite Zlt_Qlt.
  pose proof (Hadv tr suffix) as Hle. lra.
Qed.

Lemma in_time_simulated (env : Env) (timeout_s : Z) (tr suffix : list event) :
  simulated_clock env ->
  Qltb (time_time env (tr ++ suffix) - time_time env tr) (inject_Z timeout_s)
  = bool_decide (slept suffix < timeout_s).
Proof.
  intros Hsim. pose proof (Hsim tr suffix) as Heq.
  case_bool_decide as Hlt.
  - apply Qltb_lt. rewrite Zlt_Qlt in Hlt. lra.
  - apply Qltb_ge. apply Z.nlt_ge in Hlt. rewrite Zle_Qle in Hlt. lra.
Qed.

Section Termination.
Variables (env : Env) (self : GluePythonJobHelper).
Variables (session_id : string) (statement_id : Z).
Hypothesis interval_positive : 0 < polling_interval self.

Let round := [ETime; EGetStatement session_id statement_id;
              ESleep (polling_interval self)].

Lemma slept_round suffix :
  slept (suffix ++ round) = slept suffix + polling_interval self.
Proof. rewrite slept_app. subst round. unfold slept. simpl. lia. Qed.

(** When sleeping takes time, the loop ends within the iterations that
    the timeout leaves room for, whatever the session answers. *)
Lemma poll_terminates (tr : list event) (n : nat) :
  advancing_clock env ->
  ∀ suffix,
    timeout self - slept suffix <= Z.of_nat n * polling_interval self ->
    ∃ res, ∀ extra,
      poll_loop (S n + extra) env self session_id statement_id
                (time_time env tr) (tr ++ suffix) = Some res.
Proof.
  intros Hadv. induction n as [|n IH]; intros suffix Hleft.
  - destruct (poll_cases env self session_id statement_id (time_time env tr)
                (tr ++ suffix)) as [(r & sfx & _ & Hend)|[Htime _]].
    + eexists. intros extra. apply Hend.
    + apply in_time_elapsed in Htime; [lia|done].
  - destruct (poll_cases env self session_id statement_id (time_time env tr)
                (tr ++ suffix)) as [(r & sfx & _ & Hend)|[Htime Hnext]].
    + eexists. intros extra. apply Hend.
    + apply in_time_elapsed in Htime; [|done].
      destruct (IH (suffix ++ round)) as [res Hres].
      { rewrite slept_round. lia. }
      exists res. intros extra.
      change (S (S n) + extra)%nat with (S (S n + extra)).
      rewrite Hnext, <- app_assoc. apply Hres.
Qed.

Lemma wait_terminates (tr : list event) :
  advancing_clock env ->
  ∃ res, ∀ steps,
    (enough_steps self <= steps)%nat ->
    _wait_for_statement_completion steps env self session_id statement_id tr
    = Some res.
Proof.
  intros Hadv.
  destruct (poll_terminates tr (Z.to_nat (timeout self / polling_interval self + 1))
              Hadv [ETime]) as [res Hres].
  { change (slept [ETime]) with (0 + 0). pose proof (enough_steps_cover self). lia. }
  exists res. intros steps Hsteps. rewrite wait_unfold.
  unfold enough_steps in Hsteps.
  replace steps
    with (S (Z.to_nat (timeout self / polling_interval self + 1))
          + (steps - S (Z.to_nat (timeout self / polling_interval self + 1))))%nat
    by lia.
  apply Hres.
Qed.

(** On a simulated clock, with a statement that never reaches a
    terminal state, the loop ends in the timeout, at an elapsed time in
    [[timeout, timeout + interval)]. *)
Lemma poll_never_terminal (tr : list event) (n : nat) :
  simulated_clock env ->
  (∀ tr', ∃ response,
      get_statement env tr' session_id statement_id = Return response
      ∧ non_terminal (State response)) ->
  ∀ suffix,
    timeout self - slept suffix <= Z.of_nat n * polling_interval self ->
    slept suffix < timeout self + polling_interval self ->
    ∃ suffix',
      (∀ extra,
          poll_loop (S n + extra) env self session_id statement_id
                    (time_time env tr) (tr ++ suffix)
          = Some (Raise timed_out, tr ++ suffix'))
      ∧ timeout self <= slept suffix' < timeout self + polling_interval self.
Proof.
  intros Hsim Hrunning. induction n as [|n IH]; intros suffix Hleft Hbound.
  - exists (suffix ++ [ETime]). split.
    + intros extra. rewrite app_assoc. apply poll_timeout.
      rewrite in_time_simulated by done. apply bool_decide_eq_false_2. lia.
    + rewrite slept_app. change (slept [ETime]) with (0 + 0). lia.
  - destruct (decide (slept suffix < timeout self)) as [Hlt|Hge].
    + destruct (Hrunning ((tr ++ suffix) ++ [ETime])) as (response & Hget & Hstate).
      destruct (IH (suffix ++ round)) as (suffix' & Hrun & Hslept).
      { rewrite slept_round. lia. }
      { rewrite slept_round. lia. }
      exists suffix'. split; [|done]. intros extra.
      change (S (S n) + extra)%nat with (S (S n + extra)).
      rewrite (poll_again _ _ _ _ _ _ _ response); try done.
      * rewrite <- app_assoc. apply Hrun.
      * rewrite in_time_simulated by done. by apply bool_decide_eq_true_2.
    + exists (suffix ++ [ETime]). split.
      * intros extra. rewrite app_assoc. apply poll_timeout.
        rewrite in_time_simulated by done. by apply bool_decide_eq_false_2.
      * rewrite slept_app. change (slept [ETime]) with (0 + 0). lia.
Qed.

(** With a clock that advances, and a statement that never reaches a
    terminal state, the loop ends in the timeout, and not before the
    timeout has passed. *)
Lemma poll_times_out (tr : list event) (n : nat) :
advancing_clock env ->
(∀ tr', ∃ response,
    get_statement env tr' session_id statement_id = Return response
    ∧ non_terminal (State response)) ->
∀ suffix,
  timeout self - slept suffix <= Z.of_nat n * polling_interval self ->
  ∃ suffix',
    (∀ extra,
        poll_loop (S n + extra) env self session_id statement_id
                  (time_time env tr) (tr ++ suffix)
        = Some (Raise timed_out, tr ++ suffix'))
    ∧ (inject_Z (timeout self) <= time_time env (tr ++ suffix') - time_time env tr)%Q.
Proof.
intros Hadv Hrunning.
assert (Hout : ∀ suffix extra m,
           Qltb (time_time env (tr ++ suffix) - time_time env tr)
                (inject_Z (timeout self)) = false ->
           poll_loop (S m + extra) env self session_id statement_id
                     (time_time env tr) (tr ++ suffix)
           = Some (Raise timed_out, tr ++ (suffix ++ [ETime]))
           ∧ (inject_Z (timeout self)
              <= time_time env (tr ++ (suffix ++ [ETime])) - time_time env tr)%Q).
{ intros suffix extra m Htime. split.
  - rewrite app_assoc. by apply poll_timeout.
  - apply Qltb_ge in Htime.
    pose proof (advancing_clock_monotone env Hadv (tr ++ suffix) [ETime]) as Hmono.
    rewrite app_assoc. lra. }
induction n as [|n IH]; intros suffix Hleft.
- destruct (Qltb (time_time env (tr ++ suffix) - time_time env tr)
                 (inject_Z (timeout self))) eqn:Htime.
  + apply in_time_elapsed in Htime; [lia|done].
  + exists (suffix ++ [ETime]). split.
    * intros extra. by apply (Hout suffix extra 0%nat).
    * by apply (Hout suffix 0%nat 0%nat).
- destruct (Qltb (time_time env (tr ++ suffix) - time_time env tr)
                 (inject_Z (timeout self))) eqn:Htime.
  + destruct (Hrunning ((tr ++ suffix) ++ [ETime])) as (response & Hget & Hstate).
    pose proof (in_time_elapsed env _ tr suffix Hadv Htime) as Hslept.
    destruct (IH (suffix ++ round)) as (suffix' & Hrun & Hlow).
    { rewrite slept_round. lia. }
    exists suffix'. split; [|done]. intros extra.
    change (S (S n) + extra)%nat with (S (S n + extra)).
    rewrite (poll_again _ _ _ _ _ _ _ response); try done.
    rewrite <- app_assoc. apply Hrun.
  + exists (suffix ++ [ETime]). split.
    * intros extra. by apply (Hout suffix extra (S n)).
    * by apply (Hout suffix 0%nat 0%nat).
Qed.
End Termination.

Lemma sample_env_simulated tree cursor answer close :
  simulated_clock (sample_env tree cursor answer close).
Proof.
  intros tr tr'. simpl. rewrite slept_app, inject_Z_plus. reflexivity.
Qed.

(** C3, as the code has it. When every status fetch shows a non-terminal
    state and sleeping takes at least the time asked, the wait ends, with
    the timeout error; when time passes in [time.sleep] only, the clock
    then reads less than the timeout plus one poll interval past its
    reading at the start. *)
Theorem wait_times_out_within_interval :
  ∀ env self session_id statement_id tr,
    advancing_clock env ->
    0 <= timeout self ->
    0 < polling_interval self ->
    (∀ tr', ∃ response,
        get_statement env tr' session_id statement_id = Return response
        ∧ non_terminal (State response)) ->
    ∃ tr',
      (∀ steps,
          (enough_steps self <= steps)%nat ->
          _wait_for_statement_completion steps env self session_id statement_id tr
          = Some (Raise (DbtRuntimeError "Timed out waiting for statement to complete"),
                  tr'))
      ∧ (simulated_clock env ->
         (time_time env tr' - time_time env tr
          < inject_Z (timeout self + polling_interval self))%Q).
Proof.
  intros env self session_id statement_id tr Hadv Htimeout Hinterval Hrunning.
  set (n := Z.to_nat (timeout self / polling_interval self + 1)).
  assert (Hcover : timeout self - slept [ETime] <= Z.of_nat n * polling_interval self).
  { change (slept [ETime]) with (0 + 0). pose proof (enough_steps_cover self). lia. }
  destruct (poll_times_out env self session_id statement_id Hinterval tr n
              Hadv Hrunning [ETime] Hcover) as (suffix' & Hrun & _).
  exists (tr ++ suffix'). split.
  - intros steps Hsteps. rewrite wait_unfold. unfold enough_steps in Hsteps.
    replace steps with (S n + (steps - S n))%nat by lia. apply Hrun.
  - intros Hsim.
    destruct (poll_never_terminal env self session_id statement_id Hinterval tr n
                Hsim Hrunning [ETime] Hcover) as (suffix2 & Hrun2 & _ & Hhigh).
    { change (slept [ETime]) with (0 + 0). lia. }
    specialize (Hrun 0%nat). rewrite (Hrun2 0%nat) in Hrun.
    injection Hrun as Hsame. apply app_inv_head in Hsame as <-.
    rewrite Zlt_Qlt in Hhigh. pose proof (Hsim tr suffix2) as Heq. lra.
Qed.

Lemma wait_times_out_within_interval_witness :
  ∃ tr',
    (∀ steps,
        (enough_steps (__init__ short_model) <= steps)%nat ->
        _wait_for_statement_completion steps env_running (__init__ short_model)
          "session-1" 0 []
        = Some (Raise (DbtRuntimeError "Timed out waiting for statement to complete"),
                tr'))
    ∧ (time_time env_running tr' - time_time env_running [] < inject_Z (25 + 10))%Q.
Proof.
  destruct (wait_times_out_within_interval env_running (__init__ short_model)
              "session-1" 0 []) as (tr' & Hrun & Hhigh).
  - apply simulated_clock_advancing, sample_env_simulated.
  - simpl. lia.
  - simpl. lia.
  - intros tr'. exists {| State := "RUNNING"; Output := None |}.
    split; [reflexivity|]. repeat split; discriminate.
  - exists tr'. split; [exact Hrun|].
    apply Hhigh, sample_env_simulated.
Defined.

(** On the clock of [env_slow_fetch] sleeping takes the time asked and a
    fetch takes 100 seconds. *)
Lemma env_slow_fetch_advancing : advancing_clock env_slow_fetch.
Proof.
  intros tr tr'. simpl. rewrite <- inject_Z_plus, <- Zle_Qle.
  rewrite slept_app. unfold fetches. rewrite omap_app, length_app. lia.
Qed.

(** C3 as stated fails: with a timeout of 25 seconds, a poll interval of
    10 and status fetches that take 100 seconds each, on a statement that
    stays [RUNNING], the timeout error is raised 110 seconds after the
    start of the loop, more than one poll interval past the timeout. *)
Lemma wait_slow_fetch_counterexample :
  advancing_clock env_slow_fetch
  ∧ (∀ tr', get_statement env_slow_fetch tr' "session-1" 0 = in_state "RUNNING")
  ∧ ∃ tr',
      _wait_for_statement_completion 2 env_slow_fetch (__init__ short_model)
        "session-1" 0 []
      = Some (Raise (DbtRuntimeError "Timed out waiting for statement to complete"),
              tr')
      ∧ (time_time env_slow_fetch tr' - time_time env_slow_fetch [] == inject_Z 110)%Q
      ∧ ¬ (time_time env_slow_fetch tr' - time_time env_slow_fetch []
           <= inject_Z (25 + 10))%Q.
Proof.
  split; [apply env_slow_fetch_advancing|]. split; [reflexivity|].
  eexists. split; [vm_compute; reflexivity|].
  split; [vm_compute; reflexivity|]. vm_compute. intros Hle. by apply Hle.
Qed.

(** C4, as the code has it. A poll that observes [AVAILABLE] ends the
    wait: with a [Status] that lowers to [error], in a [DbtRuntimeError]
    whose message carries [ErrorName], [ErrorValue] and [Traceback];
    otherwise in a normal return, of [None]. *)
Theorem poll_available_outcome :
  ∀ steps env self session_id statement_id start_time tr response,
    Qltb (time_time env tr - start_time) (inject_Z (timeout self)) = true ->
    get_statement env (tr ++ [ETime]) session_id statement_id = Return response ->
    State response = "AVAILABLE" ->
    let output := default ∅ (Output response) in
    let status := default "" (output !! "Status") in
    let polled := tr ++ [ETime; EGetStatement session_id statement_id] in
    (lower status = "error" ->
     poll_loop (S steps) env self session_id statement_id start_time tr
     = Some (Raise (DbtRuntimeError
                      ("Python model failed with error: "
                       +:+ default "" (output !! "ErrorName")
                       +:+ nl +:+ default "" (output !! "ErrorValue")
                       +:+ nl +:+ default "" (output !! "Traceback"))),
             polled))
    ∧ (lower status ≠ "error" ->
       poll_loop (S steps) env self session_id statement_id start_time tr
       = Some (Return VNone, polled)).
Proof.
  intros steps env self session_id statement_id start_time tr response
         Htime Hget Hstate output status polled.
  split; intros Hstatus.
  - by apply (poll_available_error env self session_id statement_id start_time
                steps tr response).
  - by apply (poll_available_ok env self session_id statement_id start_time
                steps tr response).
Qed.

Lemma poll_available_outcome_witness :
  _wait_for_statement_completion 1 env_main_error (__init__ pandas_model)
    "session-1" 1 []
  = Some (Raise (DbtRuntimeError
                   ("Python model failed with error: ValueError"
                    +:+ nl +:+ "bad input" +:+ nl +:+ "[]")),
          [ETime; ETime; EGetStatement "session-1" 1]).
Proof.
  apply (proj1 (poll_available_outcome 0 env_main_error (__init__ pandas_model)
                  "session-1" 1 (time_time env_main_error []) [ETime]
                  {| State := "AVAILABLE"; Output := Some error_output |}
                  eq_refl eq_refl eq_refl)).
  reflexivity.
Defined.

(** C4 as stated fails: on a non-error output the wait returns [None],
    not the output. *)
Lemma wait_returns_none_counterexample :
  get_statement env_all_ok [ETime; ETime] "session-1" 0 = available ok_output
  ∧ ¬ ∃ tr, _wait_for_statement_completion 1 env_all_ok (__init__ pandas_model)
              "session-1" 0 []
            = Some (Return (VOutput ok_output), tr).
Proof.
  split; [reflexivity|]. intros [tr Hrun]. vm_compute in Hrun. discriminate Hrun.
Qed.

(** C10. With a timeout of zero or less, on a clock that does not go
    back, the wait raises the timeout error after reading the clock twice;
    it fetches no status, whatever the state of the statement is. *)
Theorem zero_timeout_never_polls :
  ∀ steps env self session_id statement_id tr,
    monotone_clock env ->
    timeout self <= 0 ->
    _wait_for_statement_completion (S steps) env self session_id statement_id tr
    = Some (Raise timed_out, tr ++ [ETime; ETime]).
Proof.
  intros steps env self session_id statement_id tr Hmono Htimeout.
  rewrite wait_unfold, poll_timeout; [by rewrite <- app_assoc|].
  apply Qltb_ge. pose proof (Hmono tr [ETime]) as Hclock.
  rewrite Zle_Qle in Htimeout. change (inject_Z 0) with 0%Q in Htimeout. lra.
Qed.

Lemma zero_timeout_never_polls_witness :
  get_statement env_all_ok [ETime; ETime] "session-1" 0 = available ok_output
  ∧ _wait_for_statement_completion 1 env_all_ok (__init__ zero_model) "session-1" 0 []
    = Some (Raise timed_out, [ETime; ETime]).
Proof.
  split; [reflexivity|].
  apply (zero_timeout_never_polls 0 env_all_ok (__init__ zero_model) "session-1" 0 []).
  - apply advancing_clock_monotone, simulated_clock_advancing, sample_env_simulated.
  - simpl. lia.
Defined.

(** ** The orchestration *)

Lemma bind_return {A B} (m : M A) (k : A -> M B) tr a tr' :
  m tr = Some (Return a, tr') -> bind m k tr = k a tr'.
Proof. unfold bind. by intros ->. Qed.

Lemma bind_raise {A B} (m : M A) (k : A -> M B) tr e tr' :
  m tr = Some (Raise e, tr') -> bind m k tr = Some (Raise e, tr').
Proof. unfold bind. by intros ->. Qed.

Lemma bind_inv {A B} (m : M A) (k : A -> M B) tr r tr'' :
  bind m k tr = Some (r, tr'') ->
  (∃ e, m tr = Some (Raise e, tr'') ∧ r = Raise e)
  ∨ (∃ a tr', m tr = Some (Return a, tr') ∧ k a tr' = Some (r, tr'')).
Proof.
  unfold bind. destruct (m tr) as [[[a|e] tr']|]; [| |discriminate].
  - intros Hk. right. eauto.
  - intros [= <- <-]. left. eauto.
Qed.

Lemma closes_app (tr tr' : list event) : closes (tr ++ tr') = (closes tr + closes tr')%nat.
Proof. unfold closes. by rewrite filter_app, length_app. Qed.

Lemma closes_body (suffix : list event) :
  Forall body_event suffix -> closes suffix = 0%nat.
Proof.
  unfold closes. induction 1 as [|e suffix He _ IH]; [reflexivity|].
  rewrite filter_cons_False; [done|]. intros ->. exact He.
Qed.

Lemma submitted_app (tr tr' : list event) :
  submitted (tr ++ tr') = submitted tr ++ submitted tr'.
Proof. apply omap_app. Qed.

Lemma submitted_poll (suffix : list event) :
  Forall poll_event suffix -> submitted suffix = [].
Proof.
  unfold submitted. induction 1 as [|e suffix He _ IH]; [reflexivity|].
  destruct e; simpl in *; done.
Qed.

Lemma poll_event_body (suffix : list event) :
  Forall poll_event suffix -> Forall body_event suffix.
Proof. intros Hev. eapply Forall_impl; [exact Hev|]. intros []; done. Qed.

Lemma wait_trace steps env self session_id statement_id tr r tr' :
  _wait_for_statement_completion steps env self session_id statement_id tr
  = Some (r, tr') ->
  ∃ suffix, tr' = tr ++ suffix ∧ Forall poll_event suffix.
Proof.
  rewrite wait_unfold. intros Hrun.
  apply poll_trace in Hrun as (suffix & -> & Hev).
  exists (ETime :: suffix). split; [by rewrite <- app_assoc|].
  by constructor.
Qed.

Lemma wait_more steps extra env self session_id statement_id tr res :
  _wait_for_statement_completion steps env self session_id statement_id tr = Some res ->
  _wait_for_statement_completion (steps + extra) env self session_id statement_id tr
  = Some res.
Proof. rewrite !wait_unfold. apply poll_more. Qed.

(** A statement, submitted and awaited: the calls it makes. *)
Lemma run_model_trace steps env self session_id code tr r tr' :
  run_model steps env self session_id code tr = Some (r, tr') ->
  ∃ suffix, tr' = tr ++ ERunStatement session_id code :: suffix
            ∧ Forall poll_event suffix.
Proof.
  unfold run_model. intros Hrun.
  apply bind_inv in Hrun as [(e & Hcall & ->)|(id & tr1 & Hcall & Hrun)];
    unfold _run_statement, call in Hcall; injection Hcall as Hanswer <-.
  - exists []. split; [done|constructor].
  - apply bind_inv in Hrun as [(e & Hwait & ->)|(v & tr2 & Hwait & Hret)].
    + apply wait_trace in Hwait as (suffix & -> & Hev).
      exists suffix. split; [by rewrite <- app_assoc|done].
    + injection Hret as <- <-.
      apply wait_trace in Hwait as (suffix & -> & Hev).
      exists suffix. split; [by rewrite <- app_assoc|done].
Qed.

Lemma install_packages_run_model steps env self session_id pkg rest tr :
  install_packages steps env self session_id (pkg :: rest) tr
  = run_model steps env self session_id (install_code (pkg :: rest)) tr.
Proof. reflexivity. Qed.

Lemma run_model_body_events steps env self session_id code tr r tr' :
  run_model steps env self session_id code tr = Some (r, tr') ->
  ∃ suffix, tr' = tr ++ suffix ∧ Forall body_event suffix.
Proof.
  intros Hrun. apply run_model_trace in Hrun as (suffix & -> & Hev).
  eexists. split; [reflexivity|]. constructor; [exact I|by apply poll_event_body].
Qed.

Lemma submit_body_trace steps env self session_id pkgs code tr r tr' :
  submit_body steps env self session_id pkgs code tr = Some (r, tr') ->
  ∃ suffix, tr' = tr ++ suffix ∧ Forall body_event suffix.
Proof.
  unfold submit_body. intros Hrun.
  assert (Hinstall : ∀ r1 tr1,
             install_packages steps env self session_id pkgs tr = Some (r1, tr1) ->
             ∃ suffix, tr1 = tr ++ suffix ∧ Forall body_event suffix).
  { intros r1 tr1. destruct pkgs as [|pkg rest].
    - intros [= <- <-]. exists []. by rewrite app_nil_r.
    - rewrite install_packages_run_model. apply run_model_body_events. }
  apply bind_inv in Hrun as [(e & Hi & ->)|([] & tr1 & Hi & Hmain)].
  - by apply Hinstall in Hi.
  - apply Hinstall in Hi as (suffix1 & -> & Hev1).
    apply run_model_body_events in Hmain as (suffix2 & -> & Hev2).
    exists (suffix1 ++ suffix2). split; [by rewrite app_assoc|].
    by apply Forall_app.
Qed.

Lemma extract_packages_scanned (env : Env) (code : string) :
  _extract_packages_from_code (ast_parse env code)
  = Return (scanned_packages env code).
Proof.
  unfold scanned_packages.
  destruct (extract_packages_returns (ast_parse env code)) as [found ->].
  reflexivity.
Qed.

Section Submit.
Variables (env : Env) (self : GluePythonJobHelper) (compiled_code : string).
Variable session_id : string.
Hypothesis established : connection_cursor env = Return session_id.

Let pkgs := packages_to_install env self compiled_code.
Let body (steps : nat) :=
  submit_body steps env self session_id pkgs compiled_code [ECursor].

Lemma submit_established steps :
  submit steps env self compiled_code []
  = try_finally
      (try_except (submit_body steps env self session_id pkgs compiled_code)
                  (fun e => raise (execution_failed env e)))
      (call EClose (connection_close env)) [ECursor].
Proof.
  unfold submit, bind, call, lift.
  rewrite established, extract_packages_scanned. reflexivity.
Qed.

Lemma submit_body_returned steps trb :
  body steps = Some (Return tt, trb) ->
  submit steps env self compiled_code []
  = Some (match connection_close env trb with
          | Return _ => Return tt
          | Raise e => Raise e
          end, trb ++ [EClose]).
Proof.
  subst body. simpl. intros Hbody. rewrite submit_established.
  unfold try_finally, try_except, call. rewrite Hbody.
  by destruct (connection_close env trb).
Qed.

Lemma submit_body_raised steps e trb :
  body steps = Some (Raise e, trb) ->
  submit steps env self compiled_code []
  = Some (match connection_close env trb with
          | Return _ => Raise (execution_failed env e)
          | Raise e' => Raise e'
          end, trb ++ [EClose]).
Proof.
  subst body. simpl. intros Hbody. rewrite submit_established.
  unfold try_finally, try_except, call, raise. rewrite Hbody.
  by destruct (connection_close env trb).
Qed.

Lemma submit_inv steps r tr :
  submit steps env self compiled_code [] = Some (r, tr) ->
  ∃ rb trb, body steps = Some (rb, trb) ∧ tr = trb ++ [EClose].
Proof.
  subst body. simpl. rewrite submit_established.
  unfold try_finally, try_except, call, raise.
  destruct (submit_body steps env self session_id pkgs compiled_code [ECursor])
    as [[[[]|e] trb]|]; [| |discriminate].
  - destruct (connection_close env trb); intros [= <- <-]; eauto.
  - destruct (connection_close env trb); intros [= <- <-]; eauto.
Qed.

Hypothesis interval_positive : 0 < polling_interval self.
Hypothesis clock_advances : advancing_clock env.

Lemma run_model_terminates code tr :
  ∃ res, ∀ steps,
    (enough_steps self <= steps)%nat ->
    run_model steps env self session_id code tr = Some res.
Proof.
  unfold run_model, _run_statement, bind, call.
  destruct (run_statement env tr session_id code) as [id|e]; [|eauto].
  destruct (wait_terminates env self session_id id interval_positive
              (tr ++ [ERunStatement session_id code]) clock_advances)
    as [[[v|e] tr'] Hwait].
  - eexists. intros steps Hsteps. by rewrite Hwait.
  - eexists. intros steps Hsteps. by rewrite Hwait.
Qed.

Lemma submit_body_terminates tr :
  ∃ res, ∀ steps,
    (enough_steps self <= steps)%nat ->
    submit_body steps env self session_id pkgs compiled_code tr = Some res.
Proof.
  unfold submit_body.
  assert (Hinstall : ∃ res, ∀ steps,
             (enough_steps self <= steps)%nat ->
             install_packages steps env self session_id pkgs tr = Some res).
  { destruct pkgs as [|pkg rest]; [by eexists|]. apply run_model_terminates. }
  destruct Hinstall as [[[[]|e] tr1] Hinstall].
  - destruct (run_model_terminates compiled_code tr1) as [res Hmain].
    exists res. intros steps Hsteps.
    rewrite (bind_return _ _ _ tt tr1) by auto. auto.
  - eexists. intros steps Hsteps. apply bind_raise. auto.
Qed.

Lemma submit_terminates :
  ∃ r tr, ∀ steps,
    (enough_steps self <= steps)%nat ->
    submit steps env self compiled_code [] = Some (r, tr).
Proof.
  destruct (submit_body_terminates [ECursor]) as [[[[]|e] trb] Hbody].
  - eexists _, _. intros steps Hsteps.
    apply (submit_body_returned steps trb). by apply Hbody.
  - eexists _, _. intros steps Hsteps.
    apply (submit_body_raised steps e trb). by apply Hbody.
Qed.
End Submit.

(** C2. Once the connection is established, every exit of [submit] —
    normal, or by an exception of the install statement, of the main
    statement or of a timeout — has called [connection.close()] exactly
    once, as its last call; and on a clock that advances [submit] does
    exit. *)
Theorem submit_closes_exactly_once :
  ∀ env self compiled_code session_id,
    connection_cursor env = Return session_id ->
    (∀ steps r tr,
        submit steps env self compiled_code [] = Some (r, tr) ->
        closes tr = 1%nat ∧ last tr = Some EClose)
    ∧ (advancing_clock env ->
       0 < polling_interval self ->
       ∃ r tr, ∀ steps,
         (enough_steps self <= steps)%nat ->
         submit steps env self compiled_code [] = Some (r, tr)).
Proof.
  intros env self compiled_code session_id Hcursor. split.
  - intros steps r tr Hrun.
    apply (submit_inv env self compiled_code session_id Hcursor) in Hrun
      as (rb & trb & Hbody & ->).
    apply submit_body_trace in Hbody as (suffix & -> & Hev).
    split; [|apply last_snoc].
    rewrite !closes_app, (closes_body suffix Hev). reflexivity.
  - intros Hclock Hinterval. by apply (submit_terminates env self compiled_code session_id).
Qed.

Lemma submit_closes_exactly_once_witness :
  ∃ e tr,
    submit 1 env_main_error (__init__ pandas_model) "print(1)" [] = Some (Raise e, tr)
    ∧ closes tr = 1%nat ∧ last tr = Some EClose.
Proof.
  eexists _, _. split; [vm_compute; reflexivity|].
  eapply (proj1 (submit_closes_exactly_once env_main_error (__init__ pandas_model)
                   "print(1)" "session-1" eq_refl) 1%nat).
  vm_compute. reflexivity.
Defined.

(** C1. When the install statement has been submitted and the wait for
    it raises — on state ERROR or CANCELLED, on an error payload, or
    otherwise — [submit] raises, and the install statement is the only
    statement it has submitted. *)
Theorem install_failure_blocks_main :
  ∀ steps env self compiled_code session_id install_id e tr_failed,
    connection_cursor env = Return session_id ->
    let pkgs := packages_to_install env self compiled_code in
    let install := install_code pkgs in
    pkgs ≠ [] ->
    run_statement env [ECursor] session_id install = Return install_id ->
    _wait_for_statement_completion steps env self session_id install_id
      [ECursor; ERunStatement session_id install]
    = Some (Raise e, tr_failed) ->
    ∃ e' tr,
      (∀ extra, submit (steps + extra) env self compiled_code [] = Some (Raise e', tr))
      ∧ submitted tr = [install].
Proof.
  intros steps env self compiled_code session_id install_id e tr_failed
         Hcursor pkgs install Hpkgs Hsubmitted Hwait.
  assert (Hbody : ∀ extra,
             submit_body (steps + extra) env self session_id pkgs compiled_code [ECursor]
             = Some (Raise e, tr_failed)).
  { intros extra. unfold submit_body. apply bind_raise.
    destruct pkgs as [|pkg rest] eqn:Hshape; [done|].
    rewrite install_packages_run_model. unfold run_model.
    rewrite (bind_return _ _ _ install_id [ECursor; ERunStatement session_id install]).
    - apply bind_raise. by apply wait_more.
    - unfold _run_statement, call. subst install. by rewrite Hsubmitted. }
  apply wait_trace in Hwait as (suffix & -> & Hev).
  eexists _, _. split.
  - intros extra.
    rewrite (submit_body_raised env self compiled_code session_id Hcursor
               (steps + extra) e _ (Hbody extra)).
    assert (Hshape : ∀ close : outcome unit,
               (match close with
                | Return _ => Raise (execution_failed env e)
                | Raise e' => Raise e'
                end : outcome unit)
               = Raise (match close with
                        | Return _ => execution_failed env e
                        | Raise e' => e'
                        end)) by (by intros []).
    rewrite Hshape. reflexivity.
  - rewrite !submitted_app, (submitted_poll suffix Hev). reflexivity.
Qed.

Lemma install_failure_blocks_main_witness :
  ∃ e' tr,
    (∀ extra, submit (1 + extra) env_install_error (__init__ pandas_model) "print(1)" []
              = Some (Raise e', tr))
    ∧ submitted tr = [install_code [CStr "pandas"]].
Proof.
  eapply (install_failure_blocks_main 1 env_install_error (__init__ pandas_model)
            "print(1)" "session-1" 0 (state_error "ERROR")).
  - reflexivity.
  - vm_compute. discriminate.
  - reflexivity.
  - vm_compute. reflexivity.
Defined.

(** C7, as the code has it. Once the connection is established and as
    long as [connection.close()] returns: [submit] ends either normally or
    in a [DbtRuntimeError] whose message is "Python model execution
    failed: " followed by the [str()] of the failure; whatever makes the
    install or the main statement fail (a failed state, an error payload,
    a timeout, an exception of the session client) leaves [submit] as
    that error; and when both statements complete, [submit] returns. *)
Theorem submit_failures_unified :
  ∀ steps env self compiled_code session_id,
    connection_cursor env = Return session_id ->
    (∀ tr, connection_close env tr = Return tt) ->
    let pkgs := packages_to_install env self compiled_code in
    let install := install_packages steps env self session_id pkgs [ECursor] in
    let main := run_model steps env self session_id compiled_code in
    let run := submit steps env self compiled_code [] in
    let unified (e : exn) : exn :=
      DbtRuntimeError
        ("Python model execution failed: "
         +:+ match e with
             | DbtRuntimeError msg => DbtRuntimeError_str env msg
             | PyException _ text => text
             end) in
    (∀ r tr, run = Some (r, tr) -> r = Return tt ∨ ∃ e, r = Raise (unified e))
    ∧ (∀ e tr, install = Some (Raise e, tr) ->
               run = Some (Raise (unified e), tr ++ [EClose]))
    ∧ (∀ tr_installed e tr,
          install = Some (Return tt, tr_installed) ->
          main tr_installed = Some (Raise e, tr) ->
          run = Some (Raise (unified e), tr ++ [EClose]))
    ∧ (∀ tr_installed tr,
          install = Some (Return tt, tr_installed) ->
          main tr_installed = Some (Return tt, tr) ->
          run = Some (Return tt, tr ++ [EClose])).
Proof.
  intros steps env self compiled_code session_id Hcursor Hclose pkgs install main run
         unified.
  assert (Hunified : ∀ e, execution_failed env e = unified e) by (by intros []).
  split; [|split; [|split]].
  - intros r tr Hrun. subst run.
    destruct (submit_inv env self compiled_code session_id Hcursor steps r tr Hrun)
      as ([[]|e] & trb & Hbody & ->).
    + rewrite (submit_body_returned env self compiled_code session_id Hcursor
                 steps trb Hbody), Hclose in Hrun.
      injection Hrun as <-. by left.
    + rewrite (submit_body_raised env self compiled_code session_id Hcursor
                 steps e trb Hbody), Hclose in Hrun.
      injection Hrun as <-. right. exists e. by rewrite Hunified.
  - intros e tr Hinstall. subst run.
    rewrite (submit_body_raised env self compiled_code session_id Hcursor steps e tr).
    + by rewrite Hclose, Hunified.
    + unfold submit_body. by apply bind_raise.
  - intros tr_installed e tr Hinstall Hmain. subst run.
    rewrite (submit_body_raised env self compiled_code session_id Hcursor steps e tr).
    + by rewrite Hclose, Hunified.
    + unfold submit_body. by rewrite (bind_return _ _ _ tt tr_installed).
  - intros tr_installed tr Hinstall Hmain. subst run.
    rewrite (submit_body_returned env self compiled_code session_id Hcursor steps tr).
    + by rewrite Hclose.
    + unfold submit_body. by rewrite (bind_return _ _ _ tt tr_installed).
Qed.

Lemma submit_failures_unified_witness :
  (∃ tr,
      submit 1 env_fetch_fails (__init__ pandas_model) "print(1)" []
      = Some (Raise (DbtRuntimeError "Python model execution failed: throttled"),
              tr ++ [EClose]))
  ∧ (∃ tr,
        submit 1 env_main_error (__init__ pandas_model) "print(1)" []
        = Some (Raise (DbtRuntimeError
                         ("Python model execution failed: "
                          +:+ DbtRuntimeError_str env_main_error
                                ("Python model failed with error: ValueError"
                                 +:+ nl +:+ "bad input" +:+ nl +:+ "[]"))),
                tr ++ [EClose]))
  ∧ (∃ tr,
        submit 1 env_all_ok (__init__ pandas_model) "print(1)" []
        = Some (Return tt, tr ++ [EClose])).
Proof.
  split; [|split].
  - eexists.
    eapply (proj1 (proj2 (submit_failures_unified 1 env_fetch_fails
                            (__init__ pandas_model) "print(1)" "session-1"
                            eq_refl (fun _ => eq_refl)))
              (PyException "ClientError" "throttled")).
    vm_compute. reflexivity.
  - eexists.
    eapply (proj1 (proj2 (proj2 (submit_failures_unified 1 env_main_error
                                   (__init__ pandas_model) "print(1)" "session-1"
                                   eq_refl (fun _ => eq_refl))))
              _ (output_error error_output)).
    + vm_compute. reflexivity.
    + vm_compute. reflexivity.
  - eexists.
    eapply (proj2 (proj2 (proj2 (submit_failures_unified 1 env_all_ok
                                   (__init__ pandas_model) "print(1)" "session-1"
                                   eq_refl (fun _ => eq_refl))))).
    + vm_compute. reflexivity.
    + vm_compute. reflexivity.
Defined.

(** C7 as stated fails when [connection.close()] raises: with the install
    statement in state [ERROR] the exception of [close] leaves [submit]
    in place of the [DbtRuntimeError], and with both statements completed
    [submit] raises it instead of returning. *)
Lemma submit_close_failure_counterexample :
  (install_packages 1 env_error_close_fails (__init__ pandas_model) "session-1"
     (packages_to_install env_error_close_fails (__init__ pandas_model) "print(1)")
     [ECursor]
   = Some (Raise (DbtRuntimeError "Statement execution failed with state: ERROR"),
           [ECursor; ERunStatement "session-1" (install_code [CStr "pandas"]);
            ETime; ETime; EGetStatement "session-1" 0])
   ∧ ¬ ∃ msg tr,
         submit 1 env_error_close_fails (__init__ pandas_model) "print(1)" []
         = Some (Raise (DbtRuntimeError msg), tr))
  ∧ (submit_body 1 env_close_fails (__init__ pandas_model) "session-1"
       (packages_to_install env_close_fails (__init__ pandas_model) "print(1)")
       "print(1)" [ECursor]
     = Some (Return tt,
             [ECursor; ERunStatement "session-1" (install_code [CStr "pandas"]);
              ETime; ETime; EGetStatement "session-1" 0;
              ERunStatement "session-1" "print(1)";
              ETime; ETime; EGetStatement "session-1" 1])
     ∧ ¬ ∃ tr,
           submit 1 env_close_fails (__init__ pandas_model) "print(1)" []
           = Some (Return tt, tr)).
Proof.
  split; split.
  - vm_compute. reflexivity.
  - intros (msg & tr & Hrun). vm_compute in Hrun. discriminate Hrun.
  - vm_compute. reflexivity.
  - intros (tr & Hrun). vm_compute in Hrun. discriminate Hrun.
Qed.

(** ** Outside the guarded block *)

(** [connection.cursor()] is called before the [try]: when it raises,
    [submit] ends there, with that exception and no further call. *)
Lemma submit_cursor_raises steps env self compiled_code e :
  connection_cursor env = Raise e ->
  submit steps env self compiled_code [] = Some (Raise e, [ECursor]).
Proof. unfold submit, bind, call. by intros ->. Qed.

(** An exception of [connection.close()] replaces the outcome of the
    [try]. *)
Lemma submit_close_raises steps env self compiled_code session_id r tr e :
  connection_cursor env = Return session_id ->
  (∀ tr', connection_close env tr' = Raise e) ->
  submit steps env self compiled_code [] = Some (r, tr) ->
  r = Raise e.
Proof.
  intros Hcursor Hclose Hrun.
  destruct (submit_inv env self compiled_code session_id Hcursor steps r tr Hrun)
    as ([[]|e0] & trb & Hbody & ->).
  - rewrite (submit_body_returned env self compiled_code session_id Hcursor
               steps trb Hbody), Hclose in Hrun. by injection Hrun as <-.
  - rewrite (submit_body_raised env self compiled_code session_id Hcursor
               steps e0 trb Hbody), Hclose in Hrun. by injection Hrun as <-.
Qed.

(** ** The end-to-end scenario of the specification *)

(** [config.packages = ["pandas"]], no [dbt.config] in the code: one
    install statement for pandas, polled to AVAILABLE, then the main
    statement, polled to AVAILABLE; [submit] returns. *)
Example submit_pandas_scenario :
  submit 1 env_all_ok (__init__ pandas_model) "print(1)" []
  = Some (Return tt,
          [ECursor;
           ERunStatement "session-1" (install_code [CStr "pandas"]);
           ETime; ETime; EGetStatement "session-1" 0;
           ERunStatement "session-1" "print(1)";
           ETime; ETime; EGetStatement "session-1" 1;
           EClose]).
Proof. vm_compute. reflexivity. Qed.

(** * Further properties of the code *)

(** ** The scanner reaches every node *)

Lemma walk_queue_todo (steps : nat) (todo : list node) (n : node) :
  (sum_list_with node_size todo <= steps)%nat ->
  n ∈ todo -> n ∈ walk_queue steps todo.
Proof.
  revert todo. induction steps as [|steps IH]; intros todo Hsize Hin.
  - destruct todo as [|n0 rest]; [by apply elem_of_nil in Hin|].
    simpl in Hsize. rewrite node_size_children in Hsize. lia.
  - destruct todo as [|n0 rest]; [by apply elem_of_nil in Hin|].
    simpl. apply elem_of_cons in Hin as [->|Hin]; [by left|].
    right. apply IH.
    + simpl in Hsize. rewrite node_size_children in Hsize.
      rewrite sum_list_with_app. lia.
    + apply elem_of_app. by left.
Qed.

Lemma walk_queue_children (steps : nat) (todo : list node) (n c : node) :
  (sum_list_with node_size todo <= steps)%nat ->
  n ∈ walk_queue steps todo -> child n c -> c ∈ walk_queue steps todo.
Proof.
  revert todo. induction steps as [|steps IH]; intros todo Hsize Hin Hchild.
  - destruct todo; by apply elem_of_nil in Hin.
  - destruct todo as [|n0 rest]; [by apply elem_of_nil in Hin|].
    assert (Hrest : (sum_list_with node_size (rest ++ iter_child_nodes n0) <= steps)%nat).
    { simpl in Hsize. rewrite node_size_children in Hsize.
      rewrite sum_list_with_app. lia. }
    simpl in *. right. apply elem_of_cons in Hin as [->|Hin].
    + apply walk_queue_todo; [done|]. apply elem_of_app. by right.
    + by apply IH.
Qed.

Lemma walk_queue_from_todo (steps : nat) (todo : list node) (n : node) :
  n ∈ walk_queue steps todo -> ∃ t, t ∈ todo ∧ descendant t n.
Proof.
  revert todo. induction steps as [|steps IH]; intros todo Hin.
  - destruct todo; by apply elem_of_nil in Hin.
  - destruct todo as [|n0 rest]; [by apply elem_of_nil in Hin|].
    simpl in Hin. apply elem_of_cons in Hin as [->|Hin].
    + exists n0. split; [by left|]. apply rtc_refl.
    + apply IH in Hin as (t & Ht & Hdesc).
      apply elem_of_app in Ht as [Ht|Ht].
      * exists t. split; [by right|done].
      * exists n0. split; [by left|]. by eapply rtc_l.
Qed.

(** [ast.walk] yields the nodes of the tree and nothing else. *)
Lemma walk_descendant (tree n : node) : n ∈ walk tree ↔ descendant tree n.
Proof.
  split.
  - intros Hin. apply walk_queue_from_todo in Hin as (t & Ht & Hdesc).
    by apply list_elem_of_singleton in Ht as ->.
  - intros Hdesc. unfold descendant in Hdesc.
    apply (rtc_ind_r (R:=child) (fun m => m ∈ walk tree) tree); [| |exact Hdesc].
    + destruct (walk_head tree) as [rest ->]. by left.
    + intros m c _ Hchild IH. unfold walk in *.
      eapply walk_queue_children; [simpl; lia|exact IH|exact Hchild].
Qed.

Lemma scan_keywords_found (keywords : list (option string * node)) found :
  scan_keywords keywords = Some found ->
  ∃ elts, (Some "packages", List elts) ∈ keywords ∧ found = constant_values elts.
Proof.
  induction keywords as [|[arg value] rest IH]; [discriminate|].
  simpl. intros H.
  assert (Hrest : scan_keywords rest = Some found ->
                  ∃ elts, (Some "packages", List elts) ∈ (arg, value) :: rest
                          ∧ found = constant_values elts).
  { intros Hr. destruct (IH Hr) as (elts & Hin & ->). exists elts. split; [by right|done]. }
  destruct value; try (by apply Hrest).
  case_bool_decide as Harg; [|by apply Hrest].
  subst arg. injection H as <-. eexists. split; [by left|done].
Qed.

Lemma scan_keywords_present (keywords : list (option string * node)) kw :
  kw ∈ keywords -> packages_list kw -> ∃ found, scan_keywords keywords = Some found.
Proof.
  intros Hin [elts ->].
  induction keywords as [|[arg value] rest IH]; [by apply elem_of_nil in Hin|].
  apply elem_of_cons in Hin as [Heq|Hin].
  - injection Heq as <- <-. simpl. eauto.
  - destruct (IH Hin) as [found Hfound]. simpl.
    destruct value; eauto. case_bool_decide; eauto.
Qed.

Lemma scan_nodes_finds (nodes : list node) (n : node) :
  n ∈ nodes -> has_packages_list n ->
  ∃ args keywords elts,
    dbt_config args keywords ∈ nodes
    ∧ (Some "packages", List elts) ∈ keywords
    ∧ scan_nodes nodes = Some (constant_values elts).
Proof.
  intros Hin Hhas. induction nodes as [|m rest IH]; [by apply elem_of_nil in Hin|].
  simpl. destruct (is_dbt_config m) eqn:Hcall.
  - apply is_dbt_config_spec in Hcall as (args & keywords & ->). simpl.
    destruct (scan_keywords keywords) as [found|] eqn:Hscan.
    + apply scan_keywords_found in Hscan as (elts & Hkw & ->).
      exists args, keywords, elts. split; [by left|done].
    + apply elem_of_cons in Hin as [->|Hin].
      * destruct Hhas as (args' & keywords' & kw & Heq & Hkw & Hlist).
        injection Heq as <- <-.
        destruct (scan_keywords_present keywords kw Hkw Hlist) as [found Hfound].
        congruence.
      * destruct (IH Hin) as (args' & keywords' & elts & Hm & Hkw & Hscan').
        exists args', keywords', elts. split; [by right|done].
  - apply elem_of_cons in Hin as [->|Hin].
    + destruct Hhas as (args & keywords & kw & -> & _). discriminate Hcall.
    + destruct (IH Hin) as (args' & keywords' & elts & Hm & Hkw & Hscan').
      exists args', keywords', elts. split; [by right|done].
Qed.

(** X1. A [dbt.config] call with a [packages=[...]] keyword is found
    wherever it stands in the code, at any depth of nesting: the result is
    then the constants of the [packages] list of such a call of the
    tree. *)
Theorem extract_packages_finds_nested_call :
  ∀ tree n,
    descendant tree n ->
    has_packages_list n ->
    ∃ args keywords elts,
      descendant tree (dbt_config args keywords)
      ∧ (Some "packages", List elts) ∈ keywords
      ∧ _extract_packages_from_code (Return tree) = Return (constant_values elts).
Proof.
  intros tree n Hdesc Hhas. apply walk_descendant in Hdesc.
  destruct (scan_nodes_finds (walk tree) n Hdesc Hhas)
    as (args & keywords & elts & Hin & Hkw & Hscan).
  exists args, keywords, elts. split; [by apply walk_descendant|].
  split; [done|]. unfold _extract_packages_from_code. by rewrite Hscan.
Qed.

Lemma extract_packages_finds_nested_call_witness :
  ∃ args keywords elts,
    descendant tree_model (dbt_config args keywords)
    ∧ (Some "packages", List elts) ∈ keywords
    ∧ _extract_packages_from_code (Return tree_model) = Return (constant_values elts).
Proof.
  apply (extract_packages_finds_nested_call tree_model
           (dbt_config [] [(Some "materialized", str "table");
                           (Some "packages", List [str "a"; str "b"])])).
  - apply walk_descendant. apply list_elem_of_lookup. exists 7%nat. reflexivity.
  - eexists _, _, _. split; [reflexivity|]. split; [|by eexists].
    right. left.
Defined.

(** ** The scanner reads the tree depth by depth *)

Lemma sum_size_children (todo : list node) :
  sum_list_with node_size todo
  = (length todo + sum_list_with node_size (flat_map iter_child_nodes todo))%nat.
Proof.
  induction todo as [|n rest IH]; [reflexivity|].
  simpl. rewrite sum_list_with_app, node_size_children, IH. lia.
Qed.

(** The queue is emptied front to back, the children of its nodes lining
    up behind it. *)
Lemma walk_queue_front (todo acc : list node) (steps : nat) :
  walk_queue (length todo + steps) (todo ++ acc)
  = todo ++ walk_queue steps (acc ++ flat_map iter_child_nodes todo).
Proof.
  revert acc. induction todo as [|n rest IH]; intros acc.
  - simpl. by rewrite app_nil_r.
  - simpl. f_equal. rewrite <- !app_assoc. rewrite IH. by rewrite <- app_assoc.
Qed.

Lemma iter_children_nil (k : nat) :
  Nat.iter k (flat_map iter_child_nodes) [] = [].
Proof. induction k as [|k IH]; [reflexivity|]. simpl. by rewrite IH. Qed.

Lemma walk_queue_levels (n : nat) (todo : list node) :
  (sum_list_with node_size todo <= n)%nat ->
  walk_queue (sum_list_with node_size todo) todo
  = concat (map (fun k => Nat.iter k (flat_map iter_child_nodes) todo) (seq 0 n)).
Proof.
  revert todo. induction n as [|n IH]; intros todo Hsize.
  - destruct todo as [|m rest]; [reflexivity|].
    simpl in Hsize. rewrite node_size_children in Hsize. lia.
  - destruct todo as [|m rest].
    + simpl. symmetry. apply concat_nil_Forall, Forall_forall.
      intros l Hl. apply list_elem_of_fmap in Hl as (k & -> & _).
      apply iter_children_nil.
    + remember (m :: rest) as todo eqn:Htodo.
      pose proof (sum_size_children todo) as Heq.
      pose proof (walk_queue_front todo []
                    (sum_list_with node_size (flat_map iter_child_nodes todo)))
        as Hfront.
      rewrite app_nil_r in Hfront. simpl app in Hfront.
      rewrite <- Heq in Hfront. rewrite Hfront.
      change (seq 0 (S n)) with (0%nat :: seq 1 n).
      rewrite <- seq_shift. cbn [map]. rewrite List.map_map. cbn [concat].
      change (Nat.iter 0 (flat_map iter_child_nodes) todo) with todo. f_equal.
      rewrite IH.
      * f_equal. apply map_ext. intros k. symmetry. apply Nat.iter_succ_r.
      * subst todo. simpl in *. lia.
Qed.

(** The walk is the tree read level by level. *)
Lemma walk_levels (tree : node) :
  walk tree = concat (map (fun k => level k tree) (seq 0 (node_size tree))).
Proof.
  unfold walk, level.
  rewrite <- (walk_queue_levels (node_size tree) [tree]) by (simpl; lia).
  simpl. by rewrite Nat.add_0_r.
Qed.

Lemma level_size (depth : nat) (tree : node) :
  level depth tree ≠ [] ->
  (sum_list_with node_size (level depth tree) + depth <= node_size tree)%nat.
Proof.
  induction depth as [|depth IH]; intros Hne.
  - simpl. lia.
  - assert (Hprev : level depth tree ≠ []).
    { intros Hnil. apply Hne. unfold level in *. simpl. by rewrite Hnil. }
    specialize (IH Hprev).
    pose proof (sum_size_children (level depth tree)) as Heq.
    change (level (S depth) tree) with (flat_map iter_child_nodes (level depth tree)).
    destruct (level depth tree) as [|m rest] eqn:Hlevel; [done|].
    simpl in *. lia.
Qed.

Lemma level_depth (depth : nat) (tree : node) :
  level depth tree ≠ [] -> (depth < node_size tree)%nat.
Proof.
  intros Hne. pose proof (level_size depth tree Hne) as Hsize.
  destruct (level depth tree) as [|m rest]; [done|].
  simpl in Hsize. rewrite node_size_children in Hsize. lia.
Qed.

(** X2. Walk order is breadth-first: the call that decides is the
    leftmost [dbt.config] call with a [packages=[...]] keyword at the least
    depth where one occurs, wherever deeper calls stand in the source. *)
Theorem extract_packages_shallowest_call :
  ∀ tree depth before after args kbefore kafter elts,
    level depth tree
    = before
      ++ dbt_config args (kbefore ++ (Some "packages", List elts) :: kafter)
      :: after ->
    (∀ k n, (k < depth)%nat -> n ∈ level k tree -> ¬ has_packages_list n) ->
    (∀ n, n ∈ before -> ¬ has_packages_list n) ->
    (∀ kw, kw ∈ kbefore -> ¬ packages_list kw) ->
    _extract_packages_from_code (Return tree) = Return (constant_values elts).
Proof.
  intros tree depth before after args kbefore kafter elts Hlevel Habove Hbefore Hkw.
  assert (Hdepth : (depth < node_size tree)%nat).
  { apply level_depth. rewrite Hlevel. by destruct before. }
  unfold _extract_packages_from_code. rewrite walk_levels.
  replace (node_size tree) with (depth + S (node_size tree - S depth))%nat by lia.
  rewrite seq_app, map_app, concat_app. simpl.
  rewrite scan_nodes_skip.
  - rewrite Hlevel, <- !app_assoc. simpl.
    by rewrite scan_nodes_first.
  - intros n Hin. apply list_elem_of_In, in_concat in Hin as (l & Hl & Hn).
    apply in_map_iff in Hl as (k & <- & Hk).
    apply in_seq in Hk. apply (Habove k); [lia|by apply list_elem_of_In].
Qed.

Lemma extract_packages_shallowest_call_witness :
  _extract_packages_from_code (Return tree_nested) = Return [CStr "outer"].
Proof.
  apply (extract_packages_shallowest_call tree_nested 2
           [Node "arguments" [Node "arg" []; Node "arg" []];
            expr_stmt (dbt_config [] [(Some "packages", List [str "inner"])])]
           [] [] [] [] [str "outer"]).
  - reflexivity.
  - intros k n Hk Hin.
    assert (k = 0 ∨ k = 1)%nat as [-> | ->] by lia;
      vm_compute in Hin; each_node Hin; not_packages_call.
  - intros n Hin. each_node Hin; not_packages_call.
  - intros kw Hin. by apply elem_of_nil in Hin.
Defined.

(** ** The calls of a wait, turn by turn *)

Lemma rounds_succ session_id statement_id seconds k :
  rounds session_id statement_id seconds (S k)
  = [ETime; EGetStatement session_id statement_id; ESleep seconds]
    ++ rounds session_id statement_id seconds k.
Proof. reflexivity. Qed.

Lemma slept_rounds session_id statement_id seconds k :
  0 <= seconds ->
  slept (rounds session_id statement_id seconds k) = Z.of_nat k * seconds.
Proof.
  intros Hs. induction k as [|k IH]; [reflexivity|].
  rewrite rounds_succ, slept_app, IH. unfold slept. simpl. lia.
Qed.

Lemma fetches_app (tr tr' : list event) :
  fetches (tr ++ tr') = (fetches tr + fetches tr')%nat.
Proof. unfold fetches. by rewrite omap_app, length_app. Qed.

Lemma fetches_rounds session_id statement_id seconds k :
  fetches (rounds session_id statement_id seconds k) = k.
Proof.
  induction k as [|k IH]; [reflexivity|].
  rewrite rounds_succ, fetches_app, IH. reflexivity.
Qed.

Lemma rounds_uses_session session_id statement_id seconds k :
  Forall (uses_session session_id) (rounds session_id statement_id seconds k).
Proof.
  induction k as [|k IH]; [constructor|].
  rewrite rounds_succ. apply Forall_app. split; [|done].
  repeat constructor.
Qed.

Section PollShape.
Variables (env : Env) (self : GluePythonJobHelper).
Variables (session_id : string) (statement_id : Z) (start_time : Q).

Let poll (steps : nat) := poll_loop steps env self session_id statement_id start_time.
Let in_time (tr : list event) : bool :=
  Qltb (time_time env tr - start_time) (inject_Z (timeout self)).
Let fetch := EGetStatement session_id statement_id.
Let turns := rounds session_id statement_id (polling_interval self).
Let running (tr : list event) : Prop :=
  ∃ response, get_statement env (tr ++ [ETime]) session_id statement_id = Return response
              ∧ non_terminal (State response).

(** One turn of the loop: out of time, or a fetch that ends the wait, or
    a fetch of a non-terminal state, a sleep and another turn. *)
Lemma poll_turn tr :
  (in_time tr = false
   ∧ ∀ steps, poll (S steps) tr = Some (Raise timed_out, tr ++ [ETime]))
  ∨ (in_time tr = true ∧ ¬ running tr
     ∧ ∃ r, (r = Return VNone ∨ ∃ e, r = Raise e)
            ∧ ∀ steps, poll (S steps) tr = Some (r, tr ++ [ETime; fetch]))
  ∨ (in_time tr = true ∧ running tr
     ∧ ∀ steps, poll (S steps) tr = poll steps (tr ++ turns 1%nat)).
Proof.
  destruct (in_time tr) eqn:Htime.
  2:{ left. split; [done|]. intros steps. by apply poll_timeout. }
  right.
  destruct (get_statement env (tr ++ [ETime]) session_id statement_id)
    as [response|e] eqn:Hget.
  2:{ left. split; [done|]. split.
      - intros (response & Hr & _). subst running. congruence.
      - exists (Raise e). split; [eauto|].
        intros steps. by apply poll_fetch_raises. }
  destruct (decide (non_terminal (State response))) as [Hrun|Hend].
  { right. split; [done|]. split; [by exists response|].
    intros steps. subst turns. simpl. rewrite ?app_nil_r.
    by apply (poll_again env self session_id statement_id start_time steps tr response). }
  left. split; [done|]. split.
  { intros (response' & Hr & Hstate). apply Hend. congruence. }
  destruct (decide (State response = "AVAILABLE")) as [Ha|Ha].
  - destruct (decide (lower (default "" (default ∅ (Output response) !! "Status"))
                      = "error")) as [Hs|Hs].
    + eexists. split; [right; eauto|]. intros steps.
      by apply (poll_available_error env self session_id statement_id start_time
                  steps tr response).
    + eexists. split; [by left|]. intros steps.
      by apply (poll_available_ok env self session_id statement_id start_time
                  steps tr response).
  - assert (Hfailed : State response = "CANCELLED" ∨ State response = "ERROR").
    { destruct (decide (State response = "CANCELLED")); [by left|].
      destruct (decide (State response = "ERROR")); [by right|].
      exfalso. by apply Hend. }
    eexists. split; [right; eauto|]. intros steps.
    by apply (poll_state_failed env self session_id statement_id start_time
                steps tr response).
Qed.

(** A finished loop has made [k] full turns, each in time and on a
    non-terminal state, and then either ran out of time or made a last
    fetch that ended it. *)
Lemma poll_shape steps tr r tr' :
  poll steps tr = Some (r, tr') ->
  ∃ k,
    (∀ j, (j < k)%nat -> in_time (tr ++ turns j) = true ∧ running (tr ++ turns j))
    ∧ ((in_time (tr ++ turns k) = false
        ∧ r = Raise timed_out ∧ tr' = tr ++ turns k ++ [ETime])
       ∨ (in_time (tr ++ turns k) = true ∧ ¬ running (tr ++ turns k)
          ∧ (r = Return VNone ∨ ∃ e, r = Raise e)
          ∧ tr' = tr ++ turns k ++ [ETime; fetch])).
Proof.
  revert tr. induction steps as [|steps IH]; intros tr Hrun; [discriminate|].
  destruct (poll_turn tr)
    as [[Htime Hend]|[(Htime & Hstop & r0 & Hr0 & Hend)|(Htime & Hrunning & Hnext)]].
  - rewrite Hend in Hrun. injection Hrun as <- <-.
    exists 0%nat. split; [intros j Hj; lia|]. left.
    subst turns. simpl. by rewrite ?app_nil_r.
  - rewrite Hend in Hrun. injection Hrun as <- <-.
    exists 0%nat. split; [intros j Hj; lia|]. right.
    subst turns. simpl. by rewrite ?app_nil_r.
  - rewrite Hnext in Hrun. apply IH in Hrun as (k & Hturns & Hlast).
    exists (S k). split.
    + intros [|j] Hj.
      * subst turns. simpl. by rewrite ?app_nil_r.
      * subst turns. rewrite rounds_succ, app_assoc.
        apply Hturns. lia.
    + subst turns. rewrite rounds_succ.
      change (rounds session_id statement_id (polling_interval self) 1)
        with ([ETime; fetch; ESleep (polling_interval self)] ++ []) in Hlast.
      rewrite app_nil_r in Hlast.
      rewrite <- !app_assoc in Hlast. rewrite <- !app_assoc. exact Hlast.
Qed.

(** After [k] turns on a non-terminal state, each in time, the loop
    stands where it would have started [k] turns later. *)
Lemma poll_after_turns k tr steps :
  (∀ j, (j < k)%nat -> in_time (tr ++ turns j) = true ∧ running (tr ++ turns j)) ->
  poll (k + steps) tr = poll steps (tr ++ turns k).
Proof.
  revert tr. induction k as [|k IH]; intros tr Hturns.
  - subst turns. simpl. by rewrite ?app_nil_r.
  - destruct (Hturns 0%nat ltac:(lia)) as [Htime (response & Hget & Hstate)].
    subst turns. simpl in Htime, Hget. rewrite ?app_nil_r in Htime, Hget.
    change (S k + steps)%nat with (S (k + steps)).
    unfold poll at 1.
    rewrite (poll_again env self session_id statement_id start_time _ tr response)
      by done.
    fold (poll (k + steps)). rewrite IH.
    + rewrite rounds_succ. by rewrite <- !app_assoc.
    + intros j Hj. specialize (Hturns (S j) ltac:(lia)).
      rewrite rounds_succ in Hturns. by rewrite <- !app_assoc.
Qed.
End PollShape.

(** X3. A finished wait has read the clock, made some number of full
    turns (clock, fetch of its own statement, sleep of one poll interval)
    and then either found the time up or made one last fetch; it returns
    nothing but [None]. *)
Theorem wait_calls_in_turns :
  ∀ steps env self session_id statement_id tr r tr',
    _wait_for_statement_completion steps env self session_id statement_id tr
    = Some (r, tr') ->
    ∃ k,
      let turns := rounds session_id statement_id (polling_interval self) k in
      (r = Raise timed_out ∧ tr' = tr ++ ETime :: turns ++ [ETime])
      ∨ ((r = Return VNone ∨ ∃ e, r = Raise e)
         ∧ tr' = tr ++ ETime :: turns ++ [ETime; EGetStatement session_id statement_id]).
Proof.
  intros steps env self session_id statement_id tr r tr' Hrun.
  rewrite wait_unfold in Hrun.
  apply poll_shape in Hrun as (k & _ & [(_ & -> & ->)|(_ & _ & Hr & ->)]);
    exists k; simpl; [left|right]; rewrite <- app_assoc; done.
Qed.

Lemma wait_calls_in_turns_witness :
  ∃ k,
    let turns := rounds "session-1" 0 10 k in
    (Return VNone = Raise timed_out
     ∧ [ETime; ETime; EGetStatement "session-1" 0; ESleep 10;
        ETime; EGetStatement "session-1" 0; ESleep 10;
        ETime; EGetStatement "session-1" 0]
       = [] ++ ETime :: turns ++ [ETime])
    ∨ ((Return VNone = Return VNone ∨ ∃ e, Return VNone = Raise e)
       ∧ [ETime; ETime; EGetStatement "session-1" 0; ESleep 10;
          ETime; EGetStatement "session-1" 0; ESleep 10;
          ETime; EGetStatement "session-1" 0]
         = [] ++ ETime :: turns ++ [ETime; EGetStatement "session-1" 0]).
Proof.
  apply (wait_calls_in_turns 3 env_slow (__init__ pandas_model) "session-1" 0 []).
  vm_compute. reflexivity.
Defined.

Lemma in_time_after_turns env self session_id statement_id tr j :
  advancing_clock env ->
  0 < polling_interval self ->
  Qltb (time_time env ((tr ++ [ETime])
                       ++ rounds session_id statement_id (polling_interval self) j)
        - time_time env tr)
       (inject_Z (timeout self)) = true ->
  Z.of_nat j * polling_interval self < timeout self.
Proof.
  intros Hadv Hd Htime. rewrite <- app_assoc in Htime.
  apply in_time_elapsed in Htime; [|done].
  rewrite slept_app, slept_rounds in Htime by lia.
  change (slept [ETime]) with (0 + 0) in Htime. lia.
Qed.

(** What a finished wait has cost, on a clock that advances. *)
Lemma wait_bounds steps env self session_id statement_id tr r tr' :
  advancing_clock env ->
  0 <= timeout self ->
  0 < polling_interval self ->
  _wait_for_statement_completion steps env self session_id statement_id tr
  = Some (r, tr') ->
  Z.of_nat (fetches tr' - fetches tr) * polling_interval self
  < timeout self + polling_interval self
  ∧ slept tr' - slept tr < timeout self + polling_interval self.
Proof.
  intros Hadv HT Hd Hrun.
  rewrite wait_unfold in Hrun.
  apply poll_shape in Hrun
    as (k & Hturns & [(_ & _ & ->)|(Htime & _ & _ & ->)]).
  - assert (Hk : Z.of_nat k * polling_interval self < timeout self + polling_interval self).
    { destruct k as [|k]; [lia|].
      destruct (Hturns k ltac:(lia)) as [Htime _].
      apply in_time_after_turns in Htime; [lia|done|done]. }
    rewrite !fetches_app, !slept_app, fetches_rounds, slept_rounds by lia.
    change (fetches [ETime]) with 0%nat. change (slept [ETime]) with (0 + 0).
    split; [|lia].
    replace (fetches tr + 0 + (k + 0) - fetches tr)%nat with k by lia. exact Hk.
  - apply in_time_after_turns in Htime; [|done|done].
    rewrite !fetches_app, !slept_app, fetches_rounds, slept_rounds by lia.
    change (fetches [ETime]) with 0%nat. change (slept [ETime]) with (0 + 0).
    change (fetches [ETime; EGetStatement session_id statement_id]) with 1%nat.
    change (slept [ETime; EGetStatement session_id statement_id]) with (0 + (0 + 0)).
    split; [|lia].
    replace (fetches tr + 0 + (k + 1) - fetches tr)%nat with (S k) by lia. lia.
Qed.


(** X4. On a clock that advances, a wait fetches the status at most once
    per poll interval of its timeout, and sleeps for less than the timeout
    plus one interval. *)
Theorem wait_polls_within_timeout :
  ∀ steps env self session_id statement_id tr r tr',
    advancing_clock env ->
    0 <= timeout self ->
    0 < polling_interval self ->
    _wait_for_statement_completion steps env self session_id statement_id tr
    = Some (r, tr') ->
    Z.of_nat (fetches tr' - fetches tr) * polling_interval self
    < timeout self + polling_interval self
    ∧ slept tr' - slept tr < timeout self + polling_interval self.
Proof.
  intros steps env self session_id statement_id tr r tr' Hadv HT Hd Hrun.
  by apply (wait_bounds steps env self session_id statement_id tr r tr').
Qed.

Lemma wait_polls_within_timeout_witness :
  Z.of_nat (fetches [ETime; ETime; EGetStatement "session-1" 0; ESleep 10;
                     ETime; EGetStatement "session-1" 0; ESleep 10;
                     ETime; EGetStatement "session-1" 0]
            - fetches []) * 10 < 3600 + 10
  ∧ slept [ETime; ETime; EGetStatement "session-1" 0; ESleep 10;
           ETime; EGetStatement "session-1" 0; ESleep 10;
           ETime; EGetStatement "session-1" 0]
    - slept [] < 3600 + 10.
Proof.
  apply (wait_polls_within_timeout 3 env_slow (__init__ pandas_model) "session-1" 0 []
           (Return VNone)).
  - apply simulated_clock_advancing, sample_env_simulated.
  - simpl. lia.
  - simpl. lia.
  - vm_compute. reflexivity.
Defined.

Lemma ceil_unique (T d k : Z) :
  0 < d -> 0 <= T -> 0 <= k ->
  T <= k * d ->
  (k = 0 ∨ (k - 1) * d < T) ->
  (T + d - 1) / d = k.
Proof.
  intros Hd HT Hk Hup Hlow. symmetry.
  apply (Z.div_unique_pos _ _ _ (T + d - 1 - k * d)); [|lia].
  split; [|lia]. destruct Hlow as [-> | Hlow]; lia.
Qed.

(** X5. On a simulated clock, a statement that never reaches a terminal
    state is fetched exactly as many times as poll intervals are needed
    to cover the timeout, and the wait sleeps that many intervals before
    it raises the timeout error. *)
Theorem wait_stuck_polls_exactly :
  ∀ env self session_id statement_id tr,
    simulated_clock env ->
    0 <= timeout self ->
    0 < polling_interval self ->
    (∀ tr', ∃ response,
        get_statement env tr' session_id statement_id = Return response
        ∧ non_terminal (State response)) ->
    ∃ tr',
      (∀ steps,
          (enough_steps self <= steps)%nat ->
          _wait_for_statement_completion steps env self session_id statement_id tr
          = Some (Raise timed_out, tr'))
      ∧ fetches tr' = (fetches tr + Z.to_nat (intervals_to_timeout self))%nat
      ∧ slept tr' = slept tr + polling_interval self * intervals_to_timeout self.
Proof.
  intros env self session_id statement_id tr Hsim HT Hd Hrunning.
  pose proof (simulated_clock_advancing env Hsim) as Hadv.
  set (n := Z.to_nat (timeout self / polling_interval self + 1)).
  assert (Hcover : timeout self - slept [ETime] <= Z.of_nat n * polling_interval self).
  { change (slept [ETime]) with (0 + 0). pose proof (enough_steps_cover self). lia. }
  destruct (poll_times_out env self session_id statement_id Hd tr n
              Hadv Hrunning [ETime] Hcover) as (suffix' & Hrun & _).
  exists (tr ++ suffix'). split.
  { intros steps Hsteps. rewrite wait_unfold. unfold enough_steps in Hsteps.
    replace steps with (S n + (steps - S n))%nat by lia. apply Hrun. }
  specialize (Hrun 0%nat).
  apply poll_shape in Hrun
    as (k & Hturns & [(Hout & _ & Htrace)|(_ & Hstop & _)]).
  2:{ exfalso. apply Hstop. apply Hrunning. }
  assert (Hk : intervals_to_timeout self = Z.of_nat k).
  { unfold intervals_to_timeout. apply ceil_unique; try lia.
    - rewrite <- app_assoc, in_time_simulated in Hout by done.
      apply bool_decide_eq_false in Hout.
      rewrite slept_app, slept_rounds in Hout by lia.
      change (slept [ETime]) with (0 + 0) in Hout. lia.
    - destruct k as [|k]; [by left|]. right.
      destruct (Hturns k ltac:(lia)) as [Htime _].
      apply in_time_after_turns in Htime; [lia|done|done]. }
  rewrite Htrace, Hk, Nat2Z.id.
  rewrite !fetches_app, !slept_app, fetches_rounds, slept_rounds by lia.
  change (fetches [ETime]) with 0%nat. change (slept [ETime]) with (0 + 0).
  split; lia.
Qed.

Lemma wait_stuck_polls_exactly_witness :
  ∃ tr',
    (∀ steps,
        (enough_steps (__init__ bare_model) <= steps)%nat ->
        _wait_for_statement_completion steps env_running (__init__ bare_model)
          "session-1" 0 []
        = Some (Raise timed_out, tr'))
    ∧ fetches tr' = 360%nat
    ∧ slept tr' = 3600.
Proof.
  destruct (wait_stuck_polls_exactly env_running (__init__ bare_model)
              "session-1" 0 []) as (tr' & Hrun & Hfetches & Hslept).
  - apply sample_env_simulated.
  - simpl. lia.
  - simpl. lia.
  - intros tr'. exists {| State := "RUNNING"; Output := None |}.
    split; [reflexivity|]. repeat split; discriminate.
  - exists tr'. split; [exact Hrun|]. split; [exact Hfetches|exact Hslept].
Defined.

Lemma app_cons_snoc {A} (l : list A) (x : A) (r : list A) (y : A) :
  (l ++ x :: r) ++ [y] = l ++ x :: r ++ [y].
Proof. by rewrite <- app_assoc. Qed.

(** After [k] fetches of a non-terminal state on a simulated clock, with
    time left, the wait stands at its next fetch. *)
Lemma wait_after_turns env self session_id statement_id tr k steps :
  simulated_clock env ->
  0 < polling_interval self ->
  Z.of_nat k * polling_interval self < timeout self ->
  (∀ j, (j < k)%nat ->
        ∃ response,
          get_statement env
            (tr ++ ETime :: rounds session_id statement_id (polling_interval self) j
                ++ [ETime]) session_id statement_id = Return response
          ∧ non_terminal (State response)) ->
  _wait_for_statement_completion (k + steps) env self session_id statement_id tr
  = poll_loop steps env self session_id statement_id (time_time env tr)
      (tr ++ ETime :: rounds session_id statement_id (polling_interval self) k)
  ∧ Qltb (time_time env
            (tr ++ ETime :: rounds session_id statement_id (polling_interval self) k)
          - time_time env tr) (inject_Z (timeout self)) = true.
Proof.
  intros Hsim Hd Hk Hrunning.
  assert (Htime : ∀ j, (j <= k)%nat ->
             Qltb (time_time env
                     (tr ++ ETime :: rounds session_id statement_id
                                       (polling_interval self) j)
                   - time_time env tr) (inject_Z (timeout self)) = true).
  { intros j Hj. rewrite in_time_simulated by done.
    apply bool_decide_eq_true.
    change (ETime :: rounds session_id statement_id (polling_interval self) j)
      with ([ETime] ++ rounds session_id statement_id (polling_interval self) j).
    rewrite slept_app, slept_rounds by lia.
    change (slept [ETime]) with (0 + 0). nia. }
  split; [|by apply Htime].
  rewrite wait_unfold, poll_after_turns.
  - by rewrite <- app_assoc.
  - intros j Hj. rewrite <- !app_assoc. split; [apply Htime; lia|].
    by apply Hrunning.
Qed.

(** X6. On a simulated clock, when the first [k] fetches show a
    non-terminal state, the next one shows [AVAILABLE] with a status that
    is not an error, and [k] poll intervals are less than the timeout, the
    wait returns after exactly [k] sleeps and [k + 1] fetches. *)
Theorem wait_returns_once_available :
  ∀ env self session_id statement_id tr k response steps,
    simulated_clock env ->
    0 < polling_interval self ->
    Z.of_nat k * polling_interval self < timeout self ->
    let fetch_at j :=
      tr ++ ETime :: rounds session_id statement_id (polling_interval self) j
         ++ [ETime] in
    (∀ j, (j < k)%nat ->
          ∃ running,
            get_statement env (fetch_at j) session_id statement_id = Return running
            ∧ non_terminal (State running)) ->
    get_statement env (fetch_at k) session_id statement_id = Return response ->
    State response = "AVAILABLE" ->
    lower (default "" (default ∅ (Output response) !! "Status")) ≠ "error" ->
    (k < steps)%nat ->
    _wait_for_statement_completion steps env self session_id statement_id tr
    = Some (Return VNone, fetch_at k ++ [EGetStatement session_id statement_id]).
Proof.
  intros env self session_id statement_id tr k response steps Hsim Hd Hk fetch_at
         Hrunning Hget Hstate Hstatus Hsteps.
  replace steps with (k + S (steps - S k))%nat by lia.
  destruct (wait_after_turns env self session_id statement_id tr k
              (S (steps - S k)) Hsim Hd Hk Hrunning) as [-> Htime].
  subst fetch_at. cbv beta in *.
  rewrite (poll_available_ok env self session_id statement_id (time_time env tr)
             _ _ response); try done.
  - rewrite <- (app_cons_snoc tr ETime _ ETime).
    rewrite <- (app_assoc _ [ETime] [EGetStatement session_id statement_id]).
    reflexivity.
  - by rewrite app_cons_snoc.
Qed.

Lemma wait_returns_once_available_witness :
  _wait_for_statement_completion 3 env_slow (__init__ pandas_model) "session-1" 0 []
  = Some (Return VNone,
          ([] ++ ETime :: rounds "session-1" 0 10 2 ++ [ETime])
          ++ [EGetStatement "session-1" 0]).
Proof.
  apply (wait_returns_once_available env_slow (__init__ pandas_model) "session-1" 0
           [] 2 {| State := "AVAILABLE"; Output := Some ok_output |} 3).
  - apply sample_env_simulated.
  - simpl. lia.
  - simpl. lia.
  - intros j Hj. exists {| State := "RUNNING"; Output := None |}.
    split; [|repeat split; discriminate].
    destruct j as [|[|j]]; [reflexivity|reflexivity|lia].
  - reflexivity.
  - reflexivity.
  - vm_compute. discriminate.
  - lia.
Defined.

(** X7. On a simulated clock, when the first [k] fetches show a
    non-terminal state and the next one shows [CANCELLED] or [ERROR], with
    [k] poll intervals less than the timeout, the wait raises at that
    fetch, without sleeping again, an error whose message names the
    state. *)
Theorem wait_fails_on_terminal_state :
  ∀ env self session_id statement_id tr k response steps,
    simulated_clock env ->
    0 < polling_interval self ->
    Z.of_nat k * polling_interval self < timeout self ->
    let fetch_at j :=
      tr ++ ETime :: rounds session_id statement_id (polling_interval self) j
         ++ [ETime] in
    (∀ j, (j < k)%nat ->
          ∃ running,
            get_statement env (fetch_at j) session_id statement_id = Return running
            ∧ non_terminal (State running)) ->
    get_statement env (fetch_at k) session_id statement_id = Return response ->
    State response = "CANCELLED" ∨ State response = "ERROR" ->
    (k < steps)%nat ->
    _wait_for_statement_completion steps env self session_id statement_id tr
    = Some (Raise (DbtRuntimeError
                     ("Statement execution failed with state: " +:+ State response)),
            fetch_at k ++ [EGetStatement session_id statement_id]).
Proof.
  intros env self session_id statement_id tr k response steps Hsim Hd Hk fetch_at
         Hrunning Hget Hstate Hsteps.
  replace steps with (k + S (steps - S k))%nat by lia.
  destruct (wait_after_turns env self session_id statement_id tr k
              (S (steps - S k)) Hsim Hd Hk Hrunning) as [-> Htime].
  subst fetch_at. cbv beta in *.
  rewrite (poll_state_failed env self session_id statement_id (time_time env tr)
             _ _ response); try done.
  - rewrite <- (app_cons_snoc tr ETime _ ETime).
    rewrite <- (app_assoc _ [ETime] [EGetStatement session_id statement_id]).
    reflexivity.
  - by rewrite app_cons_snoc.
Qed.

Lemma wait_fails_on_terminal_state_witness :
  _wait_for_statement_completion 1 env_cancelled (__init__ pandas_model) "session-1" 0 []
  = Some (Raise (DbtRuntimeError "Statement execution failed with state: CANCELLED"),
          ([] ++ ETime :: rounds "session-1" 0 10 0 ++ [ETime])
          ++ [EGetStatement "session-1" 0]).
Proof.
  apply (wait_fails_on_terminal_state env_cancelled (__init__ pandas_model)
           "session-1" 0 [] 0 {| State := "CANCELLED"; Output := None |} 1).
  - apply sample_env_simulated.
  - simpl. lia.
  - simpl. lia.
  - intros j Hj. lia.
  - reflexivity.
  - by left.
  - lia.
Defined.

(** X8. On a simulated clock, when the first [k] fetches show a
    non-terminal state and the next call of [get_statement] raises, with
    [k] poll intervals less than the timeout, that exception leaves the
    wait as it is: the fetch is not tried again. *)
Theorem wait_passes_fetch_exception :
  ∀ env self session_id statement_id tr k e steps,
    simulated_clock env ->
    0 < polling_interval self ->
    Z.of_nat k * polling_interval self < timeout self ->
    let fetch_at j :=
      tr ++ ETime :: rounds session_id statement_id (polling_interval self) j
         ++ [ETime] in
    (∀ j, (j < k)%nat ->
          ∃ running,
            get_statement env (fetch_at j) session_id statement_id = Return running
            ∧ non_terminal (State running)) ->
    get_statement env (fetch_at k) session_id statement_id = Raise e ->
    (k < steps)%nat ->
    _wait_for_statement_completion steps env self session_id statement_id tr
    = Some (Raise e, fetch_at k ++ [EGetStatement session_id statement_id]).
Proof.
  intros env self session_id statement_id tr k e steps Hsim Hd Hk fetch_at
         Hrunning Hget Hsteps.
  replace steps with (k + S (steps - S k))%nat by lia.
  destruct (wait_after_turns env self session_id statement_id tr k
              (S (steps - S k)) Hsim Hd Hk Hrunning) as [-> Htime].
  subst fetch_at. cbv beta in *.
  rewrite (poll_fetch_raises env self session_id statement_id (time_time env tr)
             _ _ e); try done.
  - rewrite <- (app_cons_snoc tr ETime _ ETime).
    rewrite <- (app_assoc _ [ETime] [EGetStatement session_id statement_id]).
    reflexivity.
  - by rewrite app_cons_snoc.
Qed.

Lemma wait_passes_fetch_exception_witness :
  _wait_for_statement_completion 1 env_fetch_fails (__init__ pandas_model)
    "session-1" 0 []
  = Some (Raise (PyException "ClientError" "throttled"),
          ([] ++ ETime :: rounds "session-1" 0 10 0 ++ [ETime])
          ++ [EGetStatement "session-1" 0]).
Proof.
  apply (wait_passes_fetch_exception env_fetch_fails (__init__ pandas_model)
           "session-1" 0 [] 0 (PyException "ClientError" "throttled") 1).
  - apply sample_env_simulated.
  - simpl. lia.
  - simpl. lia.
  - intros j Hj. lia.
  - reflexivity.
  - lia.
Defined.

Lemma lower_empty_not_error : lower "" ≠ "error".
Proof. discriminate. Qed.

(** X9. A response in state [AVAILABLE] that carries no [Output], or an
    [Output] without a [Status], counts as a success: the poll that
    observes it ends the wait with a normal return. *)
Theorem poll_available_without_status :
  ∀ steps env self session_id statement_id start_time tr response,
    Qltb (time_time env tr - start_time) (inject_Z (timeout self)) = true ->
    get_statement env (tr ++ [ETime]) session_id statement_id = Return response ->
    State response = "AVAILABLE" ->
    (Output response = None
     ∨ ∃ output, Output response = Some output ∧ output !! "Status" = None) ->
    poll_loop (S steps) env self session_id statement_id start_time tr
    = Some (Return VNone, tr ++ [ETime; EGetStatement session_id statement_id]).
Proof.
  intros steps env self session_id statement_id start_time tr response
         Htime Hget Hstate Hmissing.
  apply (poll_available_ok env self session_id statement_id start_time
           steps tr response); try done.
  destruct Hmissing as [-> | (output & -> & Hstatus)]; simpl.
  - rewrite lookup_empty. apply lower_empty_not_error.
  - rewrite Hstatus. apply lower_empty_not_error.
Qed.

Lemma poll_available_without_status_witness :
  _wait_for_statement_completion 1 env_no_output (__init__ pandas_model)
    "session-1" 0 []
  = Some (Return VNone, [ETime; ETime; EGetStatement "session-1" 0]).
Proof.
  apply (poll_available_without_status 0 env_no_output (__init__ pandas_model)
           "session-1" 0 (time_time env_no_output []) [ETime]
           {| State := "AVAILABLE"; Output := None |} eq_refl eq_refl eq_refl).
  by left.
Defined.

(** ** The calls of [submit] *)

Lemma slept_poll_free (e : event) (tr : list event) :
  sleep_of e = 0 -> slept (e :: tr) = slept tr.
Proof. unfold slept. simpl. intros ->. lia. Qed.

Lemma wait_uses_session steps env self session_id statement_id tr r tr' :
  _wait_for_statement_completion steps env self session_id statement_id tr
  = Some (r, tr') ->
  ∃ suffix, tr' = tr ++ suffix
            ∧ Forall poll_event suffix
            ∧ Forall (uses_session session_id) suffix.
Proof.
  intros Hrun. pose proof Hrun as Hshape.
  apply wait_trace in Hrun as (suffix & -> & Hev).
  exists suffix. split; [done|]. split; [done|].
  rewrite wait_unfold in Hshape.
  apply poll_shape in Hshape as (k & _ & [(_ & _ & Heq)|(_ & _ & _ & Heq)]);
    rewrite <- app_assoc in Heq; apply app_inv_head in Heq as ->;
    (apply Forall_app; split; [by repeat constructor|]);
    (apply Forall_app; split; [apply rounds_uses_session|by repeat constructor]).
Qed.

(** A statement submitted and awaited: its calls, and what they cost. *)
Lemma run_model_shape steps env self session_id code tr r tr' :
  run_model steps env self session_id code tr = Some (r, tr') ->
  ∃ suffix,
    tr' = tr ++ ERunStatement session_id code :: suffix
    ∧ Forall poll_event suffix
    ∧ Forall (uses_session session_id) suffix
    ∧ (advancing_clock env -> 0 <= timeout self -> 0 < polling_interval self ->
       slept suffix < timeout self + polling_interval self
       ∧ Z.of_nat (fetches suffix) * polling_interval self
         < timeout self + polling_interval self).
Proof.
  unfold run_model. intros Hrun.
  assert (Hwaited : ∀ id r0 tr0,
             _wait_for_statement_completion steps env self session_id id
               (tr ++ [ERunStatement session_id code]) = Some (r0, tr0) ->
             ∃ suffix,
               tr0 = tr ++ ERunStatement session_id code :: suffix
               ∧ Forall poll_event suffix
               ∧ Forall (uses_session session_id) suffix
               ∧ (advancing_clock env -> 0 <= timeout self ->
                  0 < polling_interval self ->
                  slept suffix < timeout self + polling_interval self
                  ∧ Z.of_nat (fetches suffix) * polling_interval self
                    < timeout self + polling_interval self)).
  { intros id r0 tr0 Hwait. pose proof Hwait as Hcost.
    apply wait_uses_session in Hwait as (suffix & -> & Hev & Hsession).
    exists suffix. split; [by rewrite <- app_assoc|]. split; [done|]. split; [done|].
    intros Hadv HT Hd.
    apply wait_bounds in Hcost as [Hfetches Hslept]; try done.
    rewrite fetches_app in Hfetches. rewrite slept_app in Hslept.
    replace (fetches (tr ++ [ERunStatement session_id code]) + fetches suffix
             - fetches (tr ++ [ERunStatement session_id code]))%nat
      with (fetches suffix) in Hfetches by lia.
    split; [lia|done]. }
  apply bind_inv in Hrun as [(e & Hcall & ->)|(id & tr1 & Hcall & Hrun)];
    unfold _run_statement, call in Hcall; injection Hcall as Hanswer <-.
  - exists []. split; [done|]. split; [constructor|]. split; [constructor|].
    intros _ HT Hd. change (slept []) with 0. change (fetches []) with 0%nat. lia.
  - apply bind_inv in Hrun as [(e & Hwait & ->)|(v & tr2 & Hwait & Hret)].
    + by apply Hwaited in Hwait.
    + injection Hret as <- <-. by apply Hwaited in Hwait.
Qed.

Lemma submit_body_shape steps env self session_id pkgs code tr r tr' :
  submit_body steps env self session_id pkgs code tr = Some (r, tr') ->
  ∃ middle,
    tr' = tr ++ middle
    ∧ Forall body_event middle
    ∧ Forall (uses_session session_id) middle
    ∧ (advancing_clock env -> 0 <= timeout self -> 0 < polling_interval self ->
       slept middle < 2 * (timeout self + polling_interval self)
       ∧ Z.of_nat (fetches middle) * polling_interval self
         < 2 * (timeout self + polling_interval self)).
Proof.
  unfold submit_body. intros Hrun.
  assert (Hstatement : ∀ code0 tr0 r0 tr1,
             run_model steps env self session_id code0 tr0 = Some (r0, tr1) ->
             ∃ part,
               tr1 = tr0 ++ part
               ∧ Forall body_event part
               ∧ Forall (uses_session session_id) part
               ∧ (advancing_clock env -> 0 <= timeout self ->
                  0 < polling_interval self ->
                  slept part < timeout self + polling_interval self
                  ∧ Z.of_nat (fetches part) * polling_interval self
                    < timeout self + polling_interval self)).
  { intros code0 tr0 r0 tr1 Hmodel.
    apply run_model_shape in Hmodel as (suffix & -> & Hev & Hsession & Hcost).
    eexists. split; [reflexivity|].
    split; [constructor; [exact I|by apply poll_event_body]|].
    split; [by constructor|].
    intros Hadv HT Hd. rewrite slept_poll_free by reflexivity.
    by apply Hcost. }
  assert (Hinstall : ∀ r1 tr1,
             install_packages steps env self session_id pkgs tr = Some (r1, tr1) ->
             ∃ part,
               tr1 = tr ++ part
               ∧ Forall body_event part
               ∧ Forall (uses_session session_id) part
               ∧ (advancing_clock env -> 0 <= timeout self ->
                  0 < polling_interval self ->
                  slept part < timeout self + polling_interval self
                  ∧ Z.of_nat (fetches part) * polling_interval self
                    < timeout self + polling_interval self)).
  { intros r1 tr1. destruct pkgs as [|pkg rest].
    - intros [= <- <-]. exists []. rewrite app_nil_r.
      split; [done|]. split; [constructor|]. split; [constructor|].
      intros _ HT Hd. change (slept []) with 0. change (fetches []) with 0%nat. lia.
    - rewrite install_packages_run_model. apply Hstatement. }
  apply bind_inv in Hrun as [(e & Hi & ->)|([] & tr1 & Hi & Hmain)].
  - apply Hinstall in Hi as (part & -> & Hev & Hsession & Hcost).
    exists part. split; [done|]. split; [done|]. split; [done|].
    intros Hadv HT Hd. destruct (Hcost Hadv HT Hd). lia.
  - apply Hinstall in Hi as (part1 & -> & Hev1 & Hsession1 & Hcost1).
    apply Hstatement in Hmain as (part2 & -> & Hev2 & Hsession2 & Hcost2).
    exists (part1 ++ part2). split; [by rewrite app_assoc|].
    split; [by apply Forall_app|]. split; [by apply Forall_app|].
    intros Hadv HT Hd. destruct (Hcost1 Hadv HT Hd), (Hcost2 Hadv HT Hd).
    rewrite slept_app, fetches_app. lia.
Qed.

(** X10. Once the connection is established, a finished [submit] has
    submitted the main code alone when there is nothing to install;
    otherwise the install statement first and, only when its wait
    returned, the main code second, and never anything else. A normal
    return means both were submitted. *)
Theorem submit_statement_order :
  ∀ steps env self compiled_code session_id r tr,
    connection_cursor env = Return session_id ->
    submit steps env self compiled_code [] = Some (r, tr) ->
    let pkgs := packages_to_install env self compiled_code in
    (pkgs = [] -> submitted tr = [compiled_code])
    ∧ (pkgs ≠ [] ->
       submitted tr = [install_code pkgs]
       ∨ submitted tr = [install_code pkgs; compiled_code])
    ∧ (pkgs ≠ [] -> r = Return tt -> submitted tr = [install_code pkgs; compiled_code]).
Proof.
  intros steps env self compiled_code session_id r tr Hcursor Hrun. cbv zeta.
  destruct (submit_inv env self compiled_code session_id Hcursor steps r tr Hrun)
    as (rb & trb & Hbody & ->).
  rewrite submitted_app. simpl. rewrite app_nil_r.
  pose proof Hbody as Hsplit. unfold submit_body in Hsplit.
  apply bind_inv in Hsplit as [(e & Hi & ->)|([] & tr1 & Hi & Hmain)].
  - rewrite (submit_body_raised env self compiled_code session_id Hcursor
               steps e _ Hbody) in Hrun.
    destruct (packages_to_install env self compiled_code) as [|pkg rest] eqn:Hpkgs;
      [discriminate Hi|].
    rewrite install_packages_run_model in Hi.
    apply run_model_trace in Hi as (suffix & -> & Hev).
    assert (Hsub : submitted ([ECursor] ++ ERunStatement session_id
                                (install_code (pkg :: rest)) :: suffix)
                   = [install_code (pkg :: rest)]).
    { rewrite submitted_app. simpl. by rewrite (submitted_poll suffix Hev). }
    split; [done|]. split; [by left|]. intros _ ->.
    destruct (connection_close env _); discriminate Hrun.
  - apply run_model_trace in Hmain as (suffix & -> & Hev).
    rewrite submitted_app. simpl. rewrite (submitted_poll suffix Hev).
    destruct (packages_to_install env self compiled_code) as [|pkg rest] eqn:Hpkgs.
    + injection Hi as <-. split; [done|]. split; done.
    + rewrite install_packages_run_model in Hi.
      apply run_model_trace in Hi as (suffix1 & -> & Hev1).
      rewrite submitted_app. simpl. rewrite (submitted_poll suffix1 Hev1).
      split; [done|]. split; [by right|done].
Qed.

Lemma submit_statement_order_witness :
  submitted [ECursor;
             ERunStatement "session-1" (install_code [CStr "pandas"]);
             ETime; ETime; EGetStatement "session-1" 0;
             ERunStatement "session-1" "print(1)";
             ETime; ETime; EGetStatement "session-1" 1;
             EClose]
  = [install_code (packages_to_install env_all_ok (__init__ pandas_model) "print(1)");
     "print(1)"].
Proof.
  apply (proj2 (proj2 (submit_statement_order 1 env_all_ok (__init__ pandas_model)
                         "print(1)" "session-1" (Return tt) _ eq_refl eq_refl))).
  - vm_compute. discriminate.
  - reflexivity.
Defined.

(** X11. Once the connection is established, the calls of a finished
    [submit] are [connection.cursor()] first, [connection.close()] last,
    and between them only statement submissions, status fetches, clock
    readings and sleeps, every one of them in the session that the
    connection gave. *)
Theorem submit_calls_one_session :
  ∀ steps env self compiled_code session_id r tr,
    connection_cursor env = Return session_id ->
    submit steps env self compiled_code [] = Some (r, tr) ->
    ∃ middle,
      tr = ECursor :: middle ++ [EClose]
      ∧ Forall body_event middle
      ∧ Forall (uses_session session_id) middle.
Proof.
  intros steps env self compiled_code session_id r tr Hcursor Hrun.
  destruct (submit_inv env self compiled_code session_id Hcursor steps r tr Hrun)
    as (rb & trb & Hbody & ->).
  apply submit_body_shape in Hbody as (middle & -> & Hev & Hsession & _).
  by exists middle.
Qed.

Lemma submit_calls_one_session_witness :
  ∃ middle,
    [ECursor;
     ERunStatement "session-1" (install_code [CStr "pandas"]);
     ETime; ETime; EGetStatement "session-1" 0;
     EClose]
    = ECursor :: middle ++ [EClose]
    ∧ Forall body_event middle
    ∧ Forall (uses_session "session-1") middle.
Proof.
  apply (submit_calls_one_session 1 env_install_error (__init__ pandas_model)
           "print(1)" "session-1"
           (Raise (execution_failed env_install_error (state_error "ERROR")))).
  - reflexivity.
  - vm_compute. reflexivity.
Defined.

(** X12. On a clock that advances, with a timeout that is not negative,
    a finished [submit] has slept for less than twice the timeout plus
    the poll interval, and has fetched statuses at most that often: each
    of its two statements has a timeout of its own. *)
Theorem submit_sleeps_within_two_timeouts :
  ∀ steps env self compiled_code session_id r tr,
    connection_cursor env = Return session_id ->
    advancing_clock env ->
    0 <= timeout self ->
    0 < polling_interval self ->
    submit steps env self compiled_code [] = Some (r, tr) ->
    slept tr < 2 * (timeout self + polling_interval self)
    ∧ Z.of_nat (fetches tr) * polling_interval self
      < 2 * (timeout self + polling_interval self).
Proof.
  intros steps env self compiled_code session_id r tr Hcursor Hadv HT Hd Hrun.
  destruct (submit_inv env self compiled_code session_id Hcursor steps r tr Hrun)
    as (rb & trb & Hbody & ->).
  apply submit_body_shape in Hbody as (middle & -> & _ & _ & Hcost).
  destruct (Hcost Hadv HT Hd) as [Hslept Hfetches].
  rewrite !slept_app, !fetches_app.
  change (slept [ECursor]) with (0 + 0). change (slept [EClose]) with (0 + 0).
  change (fetches [ECursor]) with 0%nat. change (fetches [EClose]) with 0%nat.
  split; [lia|].
  replace (0 + fetches middle + 0)%nat with (fetches middle) by lia. exact Hfetches.
Qed.

Lemma submit_sleeps_within_two_timeouts_witness :
  ∃ r tr,
    submit 4 env_running (__init__ short_model) "print(1)" [] = Some (r, tr)
    ∧ slept tr < 2 * (25 + 10)
    ∧ Z.of_nat (fetches tr) * 10 < 2 * (25 + 10).
Proof.
  eexists _, _. split; [vm_compute; reflexivity|].
  eapply (submit_sleeps_within_two_timeouts 4 env_running (__init__ short_model)
            "print(1)" "session-1").
  - reflexivity.
  - apply simulated_clock_advancing, sample_env_simulated.
  - simpl. lia.
  - simpl. lia.
  - vm_compute. reflexivity.
Defined.

(** X13. A helper built by [__init__] polls every 10 seconds, so on a
    clock that advances [submit] always comes to an end, returning or
    raising, whatever the session answers. *)
Theorem submit_of_init_terminates :
  ∀ model env compiled_code,
    advancing_clock env ->
    ∃ r tr, ∀ steps,
      (enough_steps (__init__ model) <= steps)%nat ->
      submit steps env (__init__ model) compiled_code [] = Some (r, tr).
Proof.
  intros model env compiled_code Hadv.
  destruct (connection_cursor env) as [session_id|e] eqn:Hcursor.
  - apply (submit_terminates env (__init__ model) compiled_code session_id Hcursor);
      [simpl; lia|done].
  - exists (Raise e), [ECursor]. intros steps _.
    unfold submit, bind, call. by rewrite Hcursor.
Qed.

Lemma submit_of_init_terminates_witness :
  ∃ r tr, ∀ steps,
    (enough_steps (__init__ pandas_model) <= steps)%nat ->
    submit steps env_running (__init__ pandas_model) "print(1)" [] = Some (r, tr).
Proof.
  apply (submit_of_init_terminates pandas_model env_running "print(1)").
  apply simulated_clock_advancing, sample_env_simulated.
Defined.

Lemma effective_packages_nil (declared scanned : list constant) :
  effective_packages declared scanned = [] ↔ declared = [] ∧ scanned = [].
Proof.
  split.
  - intros Hnil.
    assert (Hnone : ∀ x, x ∈ declared ++ scanned -> False).
    { intros x Hin. apply py_mem_elem in Hin.
      rewrite py_mem_app, <- py_mem_effective, Hnil in Hin. discriminate Hin. }
    destruct declared as [|x rest]; [|exfalso; apply (Hnone x); by left].
    destruct scanned as [|x rest]; [done|exfalso; apply (Hnone x); by left].
  - intros [-> ->]. reflexivity.
Qed.

(** X14. There is nothing to install exactly when the model declares no
    package and the scan of the code finds none. *)
Theorem nothing_to_install_iff :
  ∀ env self compiled_code,
    packages_to_install env self compiled_code = []
    ↔ packages self = [] ∧ scanned_packages env compiled_code = [].
Proof.
  intros env self compiled_code. unfold packages_to_install, merge_packages.
  split.
  - intros Hnil.
    pose proof (set_order_perm env (effective_packages (map CStr (packages self))
                                      (scanned_packages env compiled_code))) as Hperm.
    rewrite Hnil in Hperm. symmetry in Hperm. apply Permutation_nil_r in Hperm.
    apply effective_packages_nil in Hperm as [Hdeclared Hscanned].
    split; [|done]. by destruct (packages self).
  - intros [-> ->]. apply Permutation_nil_r.
    apply (set_order_perm env (effective_packages [] [])).
Qed.

(** X15. When [connection.cursor()] raises, [submit] raises that
    exception as it is, not wrapped in a [DbtRuntimeError], and has made
    no other call: no statement is submitted and [connection.close()] is
    not called. *)
Theorem submit_cursor_exception_unwrapped :
  ∀ steps env self compiled_code e,
    connection_cursor env = Raise e ->
    submit steps env self compiled_code [] = Some (Raise e, [ECursor])
    ∧ closes [ECursor] = 0%nat
    ∧ submitted [ECursor] = [].
Proof.
  intros steps env self compiled_code e Hcursor.
  split; [|by split]. unfold submit, bind, call. by rewrite Hcursor.
Qed.

Lemma submit_cursor_exception_unwrapped_witness :
  submit 1 env_cursor_fails (__init__ pandas_model) "print(1)" []
  = Some (Raise (PyException "ClientError" "no session"), [ECursor]).
Proof.
  apply (submit_cursor_exception_unwrapped 1 env_cursor_fails (__init__ pandas_model)
           "print(1)" (PyException "ClientError" "no session")).
  reflexivity.
Defined.

(** X16. When [connection.close()] raises, its exception is what
    [submit] raises: it replaces a normal return as well as the
    [DbtRuntimeError] of a failed statement. *)
Theorem submit_close_exception_wins :
  ∀ steps env self compiled_code session_id r tr e,
    connection_cursor env = Return session_id ->
    (∀ tr', connection_close env tr' = Raise e) ->
    submit steps env self compiled_code [] = Some (r, tr) ->
    r = Raise e ∧ last tr = Some EClose.
Proof.
  intros steps env self compiled_code session_id r tr e Hcursor Hclose Hrun.
  split; [by eapply submit_close_raises|].
  destruct (submit_inv env self compiled_code session_id Hcursor steps r tr Hrun)
    as (rb & trb & _ & ->).
  apply last_snoc.
Qed.

Lemma submit_close_exception_wins_witness :
  ∃ tr,
    submit 1 env_close_fails (__init__ pandas_model) "print(1)" []
    = Some (Raise (PyException "ClientError" "session is gone"), tr)
    ∧ last tr = Some EClose.
Proof.
  eexists. split; [vm_compute; reflexivity|].
  eapply (submit_close_exception_wins 1 env_close_fails (__init__ pandas_model)
            "print(1)" "session-1" _ _ (PyException "ClientError" "session is gone")).
  - reflexivity.
  - intros tr'. reflexivity.
  - vm_compute. reflexivity.
Defined.

(** X17. When the model declares no packages, or an empty list, the
    packages to install are those that the scan of the code found, each
    once: the scan stands in for the model's configuration. *)
Theorem scanned_packages_stand_in :
  ∀ env model compiled_code,
    config_packages (config model) = None ∨ config_packages (config model) = Some [] ->
    packages_to_install env (__init__ model) compiled_code
    ≡ₚ dict_fromkeys (scanned_packages env compiled_code).
Proof.
  intros env model compiled_code Hnone.
  unfold packages_to_install, merge_packages.
  rewrite set_order_perm, effective_packages_fromkeys.
  assert (packages (__init__ model) = []) as ->; [|done].
  simpl. by destruct Hnone as [-> | ->].
Qed.

Lemma scanned_packages_stand_in_witness :
  packages_to_install env_scanned (__init__ bare_model) "dbt.config(...)"
  ≡ₚ [CStr "a"; CStr "b"].
Proof.
  apply (scanned_packages_stand_in env_scanned bare_model "dbt.config(...)").
  by left.
Defined.

(** ** The install statement *)

Lemma string_app_assoc (a b c : string) : (a +:+ b) +:+ c = a +:+ b +:+ c.
Proof.
  induction a as [|ch a IH]; [reflexivity|].
  change (String ch ((a +:+ b) +:+ c) = String ch (a +:+ b +:+ c)). by f_equal.
Qed.

Lemma string_app_nil_r (a : string) : a +:+ "" = a.
Proof.
  induction a as [|ch a IH]; [reflexivity|].
  change (String ch (a +:+ "") = String ch a). by f_equal.
Qed.

Lemma join_contains (sep p : string) (parts : list string) :
  p ∈ parts -> ∃ before after, join sep parts = before +:+ p +:+ after.
Proof.
  induction parts as [|q rest IH]; intros Hin; [by apply elem_of_nil in Hin|].
  destruct rest as [|q' rest].
  - apply list_elem_of_singleton in Hin as ->.
    exists "", "". simpl. by rewrite string_app_nil_r.
  - apply elem_of_cons in Hin as [->|Hin].
    + exists "", (sep +:+ join sep (q' :: rest)). reflexivity.
    + destruct (IH Hin) as (before & after & Heq).
      exists (q +:+ sep +:+ before), after.
      change (join sep (q :: q' :: rest)) with (q +:+ sep +:+ join sep (q' :: rest)).
      rewrite Heq. by rewrite !string_app_assoc.
Qed.

(** X18. The install statement names every package of the list it is
    built from, as its [str()] between double quotes. *)
Theorem install_code_names_every_package :
  ∀ pkgs pkg,
    pkg ∈ pkgs ->
    ∃ before after,
      install_code pkgs = before +:+ (dquote +:+ py_str pkg +:+ dquote) +:+ after.
Proof.
  intros pkgs pkg Hin. unfold install_code.
  destruct (join_contains ", " (dquote +:+ py_str pkg +:+ dquote)
              (map (fun p => dquote +:+ py_str p +:+ dquote) pkgs))
    as (before & after & ->).
  { apply list_elem_of_fmap. by exists pkg. }
  exists (("import subprocess, sys" +:+ nl +:+
           "subprocess.check_call([sys.executable, '-m', 'pip', 'install', ")
          +:+ before),
         (after +:+ ", '-q'])").
  by rewrite !string_app_assoc.
Qed.

Lemma install_code_names_every_package_witness :
  ∃ before after,
    install_code [CStr "pandas"; CStr "numpy"]
    = before +:+ (dquote +:+ "numpy" +:+ dquote) +:+ after.
Proof.
  apply (install_code_names_every_package [CStr "pandas"; CStr "numpy"] (CStr "numpy")).
  right. left.
Defined.
